(** * sort_scans: renaming scanned PDFs from their OCR text

    A shallow embedding of [sort_scans.py] and the properties of its
    filename sanitizer, text extractor, topic inferencer and document
    loop.

    Python strings are sequences of Unicode code points, and the program
    measures and cuts them by code point ([len], slices), so a character is
    modelled by its code point and a string by the list of its characters.
    The collaborators (PyMuPDF, PIL and Tesseract, Ollama, Google Drive,
    [pathvalidate], the operating system) are the fields of an
    [environment]: the theorems hold for every environment. An exception of
    the model is an instance of Python's [Exception], which is what the
    handlers of the program catch. *)

From Stdlib Require Import String Ascii List NArith ZArith Bool Lia.
Import ListNotations.

(** ** Python strings *)

Definition char : Type := N.
Definition str : Type := list char.

Definition char_eqb (a b : char) : bool := N.eqb a b.

Fixpoint str_eqb (a b : str) : bool :=
  match a, b with
  | [], [] => true
  | x :: a', y :: b' => char_eqb x y && str_eqb a' b'
  | _, _ => false
  end.

(** A literal of the source, written as a Rocq string of ASCII characters. *)
Definition lit (s : string) : str := map N_of_ascii (list_ascii_of_string s).

Definition ch (a : ascii) : char := N_of_ascii a.

Definition space : char := ch " ".
Definition underscore : char := ch "_".
Definition dot : char := ch ".".
Definition newline : char := 10%N.
Definition dquote : char := 34%N.

(** [not s] for a string: true exactly on the empty string. *)
Definition falsy (s : str) : bool :=
  match s with [] => true | _ => false end.

(** [s.replace(old, new)] for one-character [old] and [new]. *)
Definition replace (old new : char) (s : str) : str :=
  map (fun c => if char_eqb c old then new else c) s.

Fixpoint lstrip (drop : char -> bool) (s : str) : str :=
  match s with
  | [] => []
  | c :: s' => if drop c then lstrip drop s' else s
  end.

Definition rstrip (drop : char -> bool) (s : str) : str :=
  rev (lstrip drop (rev s)).

(** [s.strip(chars)]: leading and trailing characters of the set go. *)
Definition strip_with (drop : char -> bool) (s : str) : str :=
  rstrip drop (lstrip drop s).

Definition mem_chars (chars : str) (c : char) : bool :=
  existsb (char_eqb c) chars.

(** [str.isspace] on one character: the Unicode white space of CPython. *)
Definition isspace (c : char) : bool :=
  ((9 <=? c) && (c <=? 13) || (28 <=? c) && (c <=? 32)
   || (c =? 133) || (c =? 160) || (c =? 5760)
   || (8192 <=? c) && (c <=? 8202)
   || (c =? 8232) || (c =? 8233) || (c =? 8239) || (c =? 8287)
   || (c =? 12288))%N.

(** [s.strip()] *)
Definition strip (s : str) : str := strip_with isspace s.

(** [sep.join(parts)] for a one-character separator. *)
Fixpoint join (sep : char) (parts : list str) : str :=
  match parts with
  | [] => []
  | [p] => p
  | p :: rest => p ++ sep :: join sep rest
  end.

(** [s[:n]] *)
Definition prefix (n : nat) (s : str) : str := firstn n s.

(** ** Constants of the module *)

Definition MAX_FILENAME_LENGTH : nat := 150.
Definition MAX_OCR_TEXT_FOR_LLM : nat := 4000.
Definition LLM_MODEL_NAME : str := lit "llama3:8b".
Definition PDF_MIME_TYPE : str := lit "application/pdf".

(** ** Filename sanitizer *)

Section Sanitizer.

(** [pathvalidate.sanitize_filename], a third-party function: any total
    function on strings. *)
Variable sanitize_filename : str -> str.

Definition Untitled : str := lit "Untitled".

(** The name after character sanitization, space replacement and edge
    trimming, before the length cap (lines 137-139). *)
Definition trimmed_name (topic : str) : str :=
  strip_with (mem_chars (lit " _-"))
    (replace space underscore (sanitize_filename topic)).

Definition convert_topic_to_filename (topic : str) : option str :=
  if falsy topic then None
  else
    let sanitized := sanitize_filename topic in
    let sanitized := replace space underscore sanitized in
    let sanitized := strip_with (mem_chars (lit " _-")) sanitized in
    let sanitized := prefix MAX_FILENAME_LENGTH sanitized in
    if falsy sanitized then Some Untitled
    else Some sanitized.

End Sanitizer.

(** Modelled from the spec: [pathvalidate.sanitize_filename] is a
    third-party function that is not part of the repository; the spec says
    it removes the characters that are illegal or unsafe in file names.
    This instance deletes the control characters, the double quote and the
    characters of the literal below, and is used for concrete runs only. *)
Definition unsafe_filename_char (c : char) : bool :=
  ((c <? 32) || (c =? 127))%N || mem_chars (dquote :: lit "\/:*?<>|") c.

Definition remove_unsafe_chars (s : str) : str :=
  filter (fun c => negb (unsafe_filename_char c)) s.


(** ** [os.path.splitext] *)

(** [s.rfind(c)] for a one-character [c]: the highest index of [c] in [s],
    or -1. *)
Fixpoint rfind_from (s : str) (c : char) (i last : Z) : Z :=
  match s with
  | [] => last
  | x :: s' => rfind_from s' c (i + 1) (if char_eqb x c then i else last)
  end.

Definition rfind (s : str) (c : char) : Z := rfind_from s c 0 (-1).

(** [s[a:b]] for [0 <= a]. *)
Definition slice (s : str) (a b : Z) : str :=
  firstn (Z.to_nat (b - a)) (skipn (Z.to_nat a) s).

(** The [while filenameIndex < dotIndex] loop of [genericpath._splitext],
    which runs at most [dotIndex - filenameIndex] times: [Some] is its
    [return] inside the loop, [None] is falling out of it. *)
Fixpoint _splitext_loop (iterations : nat) (p : str) (extsep : char)
    (filenameIndex dotIndex : Z) : option (str * str) :=
  match iterations with
  | O => None
  | S n =>
      if negb (str_eqb (slice p filenameIndex (filenameIndex + 1)) [extsep])
      then Some (firstn (Z.to_nat dotIndex) p, skipn (Z.to_nat dotIndex) p)
      else _splitext_loop n p extsep (filenameIndex + 1) dotIndex
  end.

Definition _splitext (p : str) (sep : char) (altsep : option char)
    (extsep : char) : str * str :=
  let sepIndex := rfind p sep in
  let sepIndex :=
    match altsep with
    | Some a => Z.max sepIndex (rfind p a)
    | None => sepIndex
    end in
  let dotIndex := rfind p extsep in
  let skipped :=
    if (sepIndex <? dotIndex)%Z
    then _splitext_loop (Z.to_nat (dotIndex - (sepIndex + 1))) p extsep
           (sepIndex + 1) dotIndex
    else None in
  match skipped with
  | Some r => r
  | None => (p, [])
  end.

(** [os.path] is [posixpath] or [ntpath]. *)
Inductive os_path : Type := posixpath | ntpath.

Definition slash : char := ch "/".
Definition backslash : char := ch "\".

Definition os_sep (os : os_path) : char :=
  match os with posixpath => slash | ntpath => backslash end.

Definition os_altsep (os : os_path) : option char :=
  match os with posixpath => None | ntpath => Some slash end.

Definition splitext (os : os_path) (p : str) : str * str :=
  _splitext p (os_sep os) (os_altsep os) dot.

(** A path separator of the platform. *)
Definition is_sep (os : os_path) (c : char) : bool :=
  char_eqb c (os_sep os)
  || match os_altsep os with Some a => char_eqb c a | None => false end.

(** Lines 206-207 of [main]: the candidate new name. *)
Definition new_name_of (os : os_path) (new_name_base original_name : str) : str :=
  let file_extension := snd (splitext os original_name) in
  new_name_base ++ file_extension.

(** The extension as the specification words it: the name is split at its
    last dot, the dot going with the extension; no dot, no extension. *)
Definition extension_at_last_dot (name : str) : str :=
  let dotIndex := rfind name dot in
  if (dotIndex <? 0)%Z then [] else skipn (Z.to_nat dotIndex) name.

(** ** Exceptions, events and the world *)

(** An instance of Python's [Exception]. *)
Record exn : Type := Exception { exn_msg : string }.

(** Names of files on the local disk. *)
Definition path : Type := nat.

Definition file_id : Type := str.

(** An entry of a Drive listing, [{'id': ..., 'name': ...}]. *)
Record drive_file : Type := DriveFile { item_id : file_id; item_name : str }.

(** The lines the program prints, by source line. *)
Inductive message : Type :=
| MsgFolderError (folder_name : str)                    (* 60 *)
| MsgProcessingPages (page_count : nat)                 (* 71 *)
| MsgPageProcessed (page_num page_count : nat)          (* 87 *)
| MsgOcrFailed (page_num : nat) (e : exn)               (* 89 *)
| MsgOcrComplete                                        (* 92 *)
| MsgPdfError (e : exn)                                 (* 95 *)
| MsgImageCleanupError (img_path : path) (e : exn)      (* 103 *)
| MsgTruncating (len : nat)                             (* 114 *)
| MsgSending                                            (* 119 *)
| MsgLlmResponse (topic : str)                          (* 123 *)
| MsgLlmUnexpected                                      (* 126 *)
| MsgLlmError (e : exn)                                 (* 129 *)
| MsgAuthFailed                                         (* 149 *)
| MsgFolderNotFound                                     (* 156 *)
| MsgFoundFolder (folder_name folder_id : str)          (* 159 *)
| MsgListing                                            (* 160 *)
| MsgNoPdf                                              (* 169 *)
| MsgFound (count : nat)                                (* 172 *)
| MsgProcessingFile (original_name : str) (id : file_id) (* 177 *)
| MsgDownloading                                        (* 185 *)
| MsgDownloadComplete                                   (* 189 *)
| MsgNoText                                             (* 193 *)
| MsgNoTopic                                            (* 198 *)
| MsgEmptyFilename                                      (* 203 *)
| MsgNewName (new_name : str)                           (* 208 *)
| MsgRenaming (original_name new_name : str)            (* 212 *)
| MsgRenameOk                                           (* 219 *)
| MsgRenameError (e : exn)                              (* 221 *)
| MsgUnexpected (original_name : str) (e : exn)         (* 224 *)
| MsgPdfCleaned (temp_pdf_path : path)                  (* 229 *)
| MsgPdfCleanupError (temp_pdf_path : path) (e : exn).  (* 231 *)

(** What the program does to the outside, in order. *)
Inductive event : Type :=
| Printed (m : message)
| TempFileCreated (p : path)          (* tempfile.NamedTemporaryFile *)
| FileRemoved (p : path)              (* os.remove went through *)
| Generate (model prompt : str)       (* ollama.generate is called *)
| Download (id : file_id) (p : path)  (* the chunks of a file are requested *)
| Update (id : file_id) (new_name : str). (* a rename request is sent *)

Record world : Type := World {
  files : list path;     (* the temporary files on disk *)
  trace : list event     (* the events so far, oldest first *)
}.

(** What PyMuPDF, PIL and Tesseract do with one page: [rasterize] is
    [load_page] and [get_pixmap], [save] is [pix.save], [ocr] is
    [Image.open] and [image_to_string]. [None] is success. *)
Record page : Type := Page {
  rasterize : option exn;
  save : option exn;
  ocr : exn + str
}.

(** An opened PDF: its pages and what [doc.close()] does. *)
Record document : Type := Document {
  doc_pages : list page;
  close : option exn
}.

Definition page_count (doc : document) : nat := length (doc_pages doc).

(** The collaborators. Each one sees the world at the time of the call, so
    that its answer may depend on everything that happened before. *)
Record environment : Type := Environment {
  sanitize_filename : str -> str;
  os_path_module : os_path;
  tempfile_error : world -> option exn;          (* NamedTemporaryFile raises *)
  remove_error : world -> path -> option exn;    (* os.remove raises *)
  fitz_open : world -> path -> exn + document;
  get_media_error : world -> file_id -> option exn;
  download_error : world -> file_id -> path -> option exn;
  generate : world -> str -> str -> exn + option str;
  update_error : world -> file_id -> str -> option exn;
  authenticate_drive : world -> exn + bool;
  input : world -> str;
  list_files : world -> str -> exn + list drive_file
}.

(** ** Statements of the program

    A statement runs on the local variables [L] of its function that
    handlers read after an exception, and on the world; it ends with a
    value or with a raised exception, and the state it reached is kept in
    both cases. *)

Inductive result (A : Type) : Type :=
| Ret (a : A)
| Raise (e : exn).
Arguments Ret {A} a.
Arguments Raise {A} e.

Definition M (L A : Type) : Type := L * world -> result A * (L * world).

Definition ret {L A} (a : A) : M L A := fun s => (Ret a, s).

Definition raise {L A} (e : exn) : M L A := fun s => (Raise e, s).

Definition bind {L A B} (m : M L A) (k : A -> M L B) : M L B :=
  fun s =>
    match m s with
    | (Ret a, s') => k a s'
    | (Raise e, s') => (Raise e, s')
    end.

Declare Scope py_scope.
Delimit Scope py_scope with py.
Notation "x <- m ;; k" := (bind m (fun x => k))
  (at level 61, m at next level, right associativity) : py_scope.
Notation "m ;; k" := (bind m (fun _ => k))
  (at level 61, right associativity) : py_scope.
Open Scope py_scope.

(** [try: m except Exception as e: handler e] *)
Definition try_except {L A} (m : M L A) (handler : exn -> M L A) : M L A :=
  fun s =>
    match m s with
    | (Ret a, s') => (Ret a, s')
    | (Raise e, s') => handler e s'
    end.

(** [try: m finally: final]: [final] runs in both cases; an exception of
    [final] replaces the outcome of [m]. *)
Definition try_finally {L A} (m : M L A) (final : M L unit) : M L A :=
  fun s =>
    match m s with
    | (r, s') =>
        match final s' with
        | (Ret _, s'') => (r, s'')
        | (Raise e, s'') => (Raise e, s'')
        end
    end.

(** [for x in xs: body x] *)
Fixpoint for_each {L X} (xs : list X) (body : X -> M L unit) : M L unit :=
  match xs with
  | [] => ret tt
  | x :: xs' => body x ;; for_each xs' body
  end.

(** A [for] loop that grows a local value [acc]. *)
Fixpoint for_fold {L X A} (xs : list X) (body : X -> A -> M L A) (acc : A)
    : M L A :=
  match xs with
  | [] => ret acc
  | x :: xs' => acc' <- body x acc ;; for_fold xs' body acc'
  end.

Definition get_local {L} : M L L := fun s => (Ret (fst s), s).

Definition set_local {L} (l : L) : M L unit := fun s => (Ret tt, (l, snd s)).

(** A call: the callee runs on locals of its own. *)
Definition call {L L' A} (init : L') (m : M L' A) : M L A :=
  fun s =>
    match m (init, snd s) with
    | (r, (_, w)) => (r, (fst s, w))
    end.

Definition emit {L} (e : event) : M L unit :=
  fun s => (Ret tt, (fst s, World (files (snd s)) (trace (snd s) ++ [e]))).

Definition print {L} (m : message) : M L unit := emit (Printed m).

(** A call of a collaborator that returns a value or raises. *)
Definition ask {L A} (f : world -> exn + A) : M L A :=
  fun s =>
    match f (snd s) with
    | inr a => (Ret a, s)
    | inl e => (Raise e, s)
    end.

(** A call of a collaborator that returns nothing or raises. *)
Definition attempt {L} (f : world -> option exn) : M L unit :=
  fun s =>
    match f (snd s) with
    | None => (Ret tt, s)
    | Some e => (Raise e, s)
    end.

(** ** The file system *)

Definition on_disk (p : path) (fs : list path) : bool := existsb (Nat.eqb p) fs.

(** A name that no file on disk has. *)
Definition fresh_path (fs : list path) : path := S (list_max fs).

Definition delete_file (p : path) (fs : list path) : list path :=
  filter (fun q => negb (Nat.eqb p q)) fs.

Section Program.

Variable E : environment.

(** [tempfile.NamedTemporaryFile(delete=False, ...)]: a new file under a
    new name, which stays on disk when the [with] block is left. *)
Definition NamedTemporaryFile {L} : M L path :=
  attempt (tempfile_error E) ;;
  fun s =>
    let p := fresh_path (files (snd s)) in
    (Ret p, (fst s, World (p :: files (snd s))
                          (trace (snd s) ++ [TempFileCreated p]))).

Definition os_path_exists {L} (p : path) : M L bool :=
  fun s => (Ret (on_disk p (files (snd s))), s).

Definition os_remove {L} (p : path) : M L unit :=
  ex <- os_path_exists p ;;
  if negb ex then raise (Exception "FileNotFoundError")
  else
    attempt (fun w => remove_error E w p) ;;
    fun s =>
      (Ret tt, (fst s, World (delete_file p (files (snd s)))
                             (trace (snd s) ++ [FileRemoved p]))).

(** *** Text extractor *)

(** One turn of the page loop (lines 75-89). The local [image_temp_files]
    is the [L] of the function; [pages] is passed along. *)
Definition ocr_page (doc : document) (page_num : nat) (pages : list str)
    : M (list path) (list str) :=
  match nth_error (doc_pages doc) page_num with
  | None => raise (Exception "IndexError")
  | Some pg =>
      attempt (fun _ => rasterize pg) ;;
      img_path <- NamedTemporaryFile ;;
      attempt (fun _ => save pg) ;;
      image_temp_files <- get_local ;;
      set_local (image_temp_files ++ [img_path]) ;;
      try_except
        (page_text <- ask (fun _ => ocr pg) ;;
         print (MsgPageProcessed (page_num + 1) (page_count doc)) ;;
         ret (pages ++ [page_text]))
        (fun e =>
         print (MsgOcrFailed (page_num + 1) e) ;;
         ret pages)
  end.

(** One turn of the loop of the [finally] block (lines 99-103). *)
Definition remove_image_temp_file (img_path : path) : M (list path) unit :=
  ex <- os_path_exists img_path ;;
  if ex then
    try_except (os_remove img_path)
      (fun e => print (MsgImageCleanupError img_path e))
  else ret tt.

(** The [finally] block of the extractor (lines 98-103). *)
Definition remove_image_temp_files : M (list path) unit :=
  image_temp_files <- get_local ;;
  for_each image_temp_files remove_image_temp_file.

(** The result is [None] for Python's [None]. The [return None] of the
    handler is the value [None] of the [try] statement, after which only
    the [finally] block runs. *)
Definition perform_ocr_on_pdf {L} (pdf_path : path) : M L (option str) :=
  call (@nil path)
    (text <-
       try_finally
         (try_except
            (doc <- ask (fun w => fitz_open E w pdf_path) ;;
             print (MsgProcessingPages (page_count doc)) ;;
             pages <- for_fold (seq 0 (page_count doc)) (ocr_page doc) [] ;;
             let text := join newline pages in
             print MsgOcrComplete ;;
             attempt (fun _ => close doc) ;;
             ret (Some text))
            (fun e =>
             print (MsgPdfError e) ;;
             ret None))
         remove_image_temp_files ;;
     ret (option_map strip text)).

(** *** Topic inferencer *)

(** [LLM_PROMPT_TEMPLATE], before and after its only field [{text}]. *)
Definition LLM_PROMPT_TEMPLATE_before : str :=
  lit "The following text is a text of a letter or invoice obtained via OCR, likely in German or English."
  ++ newline ::
  lit "Extract the sender and the short topic (3-5 words) from it, to use as a file name."
  ++ newline ::
  lit "Avoid including any introductory or concluding remarks like 'The topic is:' or similar."
  ++ newline :: newline ::
  lit "TEXT:"
  ++ [newline].

Definition LLM_PROMPT_TEMPLATE_after : str :=
  newline ::
  lit "END OF TEXT"
  ++ newline :: newline ::
  lit "Remember, your task is to extract the sender and the short topic (3-5 words) from it, to use as a file name."
  ++ newline ::
  lit "Respond ONLY in the format " ++ dquote :: lit "SENDER - TOPIC" ++ dquote ::
  lit ", without any markup, comments or surrounding text."
  ++ [newline].

(** [LLM_PROMPT_TEMPLATE.format(text=text)] *)
Definition LLM_PROMPT_TEMPLATE_format (text : str) : str :=
  LLM_PROMPT_TEMPLATE_before ++ text ++ LLM_PROMPT_TEMPLATE_after.

(** The reply of [ollama.generate] is [Some r] when it is truthy and has
    the field ['response'] with value [r], and [None] otherwise. *)
Definition get_topic_from_llm {L} (text : str) : M L (option str) :=
  if falsy text then ret None
  else
    text <- (if MAX_OCR_TEXT_FOR_LLM <? length text
             then print (MsgTruncating (length text)) ;;
                  ret (prefix MAX_OCR_TEXT_FOR_LLM text)
             else ret text) ;;
    let prompt := LLM_PROMPT_TEMPLATE_format text in
    try_except
      (print MsgSending ;;
       emit (Generate LLM_MODEL_NAME prompt) ;;
       response <- ask (fun w => generate E w LLM_MODEL_NAME prompt) ;;
       match response with
       | Some r =>
           let topic := strip r in
           print (MsgLlmResponse topic) ;;
           ret (Some topic)
       | None =>
           print MsgLlmUnexpected ;;
           ret None
       end)
      (fun e =>
       print (MsgLlmError e) ;;
       ret None).

(** *** Document processor *)

(** [find_folder_id] (lines 54-62). *)
Definition find_folder_id {L} (folder_name : str) : M L (option str) :=
  let query :=
    lit "name='" ++ folder_name
    ++ lit "' and mimeType='application/vnd.google-apps.folder' and trashed=false" in
  items <- ask (fun w => list_files E w query) ;;
  match items with
  | [] => print (MsgFolderError folder_name) ;; ret None
  | item :: _ => ret (Some (item_id item))
  end.

(** One turn of the loop of [main] (lines 175-231); the local
    [temp_pdf_path] is the [L] of the function. Each [continue] of the
    source ends the [try] block, after which the turn is over, so it is the
    branch that does nothing more. The chunks of a download are one call
    of the collaborator. *)
Definition process_item (item : drive_file) : M (option path) unit :=
  let file_id := item_id item in
  let original_name := item_name item in
  print (MsgProcessingFile original_name file_id) ;;
  set_local None ;;
  try_finally
    (try_except
       (attempt (fun w => get_media_error E w file_id) ;;
        temp_file <- NamedTemporaryFile ;;
        print MsgDownloading ;;
        emit (Download file_id temp_file) ;;
        attempt (fun w => download_error E w file_id temp_file) ;;
        set_local (Some temp_file) ;;
        print MsgDownloadComplete ;;
        ocr_text <- perform_ocr_on_pdf temp_file ;;
        match ocr_text with
        | None | Some [] => print MsgNoText
        | Some ocr_text =>
            topic <- get_topic_from_llm ocr_text ;;
            match topic with
            | None | Some [] => print MsgNoTopic
            | Some topic =>
                match convert_topic_to_filename (sanitize_filename E) topic with
                | None | Some [] => print MsgEmptyFilename
                | Some new_name_base =>
                    let new_name :=
                      new_name_of (os_path_module E) new_name_base original_name in
                    print (MsgNewName new_name) ;;
                    if str_eqb new_name original_name then ret tt
                    else
                      print (MsgRenaming original_name new_name) ;;
                      try_except
                        (emit (Update file_id new_name) ;;
                         attempt (fun w => update_error E w file_id new_name) ;;
                         print MsgRenameOk)
                        (fun e => print (MsgRenameError e))
                end
            end
        end)
       (fun e => print (MsgUnexpected original_name e)))
    (temp_pdf_path <- get_local ;;
     match temp_pdf_path with
     | None => ret tt
     | Some temp_pdf_path =>
         ex <- os_path_exists temp_pdf_path ;;
         if ex then
           try_except
             (os_remove temp_pdf_path ;;
              print (MsgPdfCleaned temp_pdf_path))
             (fun e => print (MsgPdfCleanupError temp_pdf_path e))
         else ret tt
     end).

(** The loop of [main] (lines 174-231). *)
Definition process_items (items : list drive_file) : M (option path) unit :=
  for_each items process_item.

(** [authenticate_drive] is credential input and output with the Google
    libraries: its outcome, the truth value of the service object or an
    exception, comes from the environment. *)
Definition main : M (option path) unit :=
  drive_service <- ask (authenticate_drive E) ;;
  if negb drive_service then print MsgAuthFailed
  else
    folder_name <- (fun s => (Ret (input E (snd s)), s)) ;;
    folder_id <- find_folder_id folder_name ;;
    match folder_id with
    | None | Some [] => print MsgFolderNotFound
    | Some folder_id =>
        print (MsgFoundFolder folder_name folder_id) ;;
        print MsgListing ;;
        let query :=
          dquote :: folder_id ++ dquote :: lit " in parents and mimeType="
          ++ dquote :: PDF_MIME_TYPE ++ dquote :: lit " and trashed=false" in
        items <- ask (fun w => list_files E w query) ;;
        match items with
        | [] => print MsgNoPdf
        | _ =>
            print (MsgFound (length items)) ;;
            process_items items
        end
    end.

End Program.

(** ** Notions of the statements *)

(** [sepIndex] of [_splitext]. *)
Definition sepIndex_of (os : os_path) (p : str) : Z :=
  match os_altsep os with
  | Some a => Z.max (rfind p (os_sep os)) (rfind p a)
  | None => rfind p (os_sep os)
  end.

(** No character of [s] is a path separator. *)
Definition no_sep (os : os_path) (s : str) : Prop :=
  forall c, In c s -> is_sep os c = false.

(** Where the last component of a path begins: at the start, or after a
    separator. *)
Definition ends_directory (os : os_path) (dir : str) : Prop :=
  dir = [] \/ exists d s, dir = d ++ [s] /\ is_sep os s = true.

(** The value or exception of a run, and the world it leaves. *)
Definition outcome {L A} (run : result A * (L * world)) : result A := fst run.

Definition final_world {L A} (run : result A * (L * world)) : world :=
  snd (snd run).

(** The temporary files that a run of events creates, in order. *)
Fixpoint created (evs : list event) : list path :=
  match evs with
  | [] => []
  | TempFileCreated p :: evs' => p :: created evs'
  | _ :: evs' => created evs'
  end.

(** The prompts that a run of events sends to the model. *)
Fixpoint prompts (evs : list event) : list str :=
  match evs with
  | [] => []
  | Generate _ prompt :: evs' => prompt :: prompts evs'
  | _ :: evs' => prompts evs'
  end.

(** The rename requests of a run of events. *)
Fixpoint renames (evs : list event) : list (file_id * str) :=
  match evs with
  | [] => []
  | Update id new_name :: evs' => (id, new_name) :: renames evs'
  | _ :: evs' => renames evs'
  end.

(** The documents whose processing a run of events starts (line 177). *)
Fixpoint started (evs : list event) : list drive_file :=
  match evs with
  | [] => []
  | Printed (MsgProcessingFile original_name id) :: evs' =>
      DriveFile id original_name :: started evs'
  | _ :: evs' => started evs'
  end.

(** The candidate names of a run of events (line 208). *)
Fixpoint candidates (evs : list event) : list str :=
  match evs with
  | [] => []
  | Printed (MsgNewName new_name) :: evs' => new_name :: candidates evs'
  | _ :: evs' => candidates evs'
  end.

(** An event that is not the start of a document, a candidate name or a
    rename request. *)
Definition silent (e : event) : Prop :=
  match e with
  | Printed (MsgProcessingFile _ _) | Printed (MsgNewName _) | Update _ _ => False
  | _ => True
  end.

(** Every event of the statement [m] satisfies [P]. *)
Definition emits {L A} (P : event -> Prop) (m : M L A) : Prop :=
  forall s, exists evs,
    trace (snd (snd (m s))) = trace (snd s) ++ evs /\ Forall P evs.

(** The statement [m] never raises. *)
Definition safe {L A} (m : M L A) : Prop :=
  forall s, exists a s', m s = (Ret a, s').

(** The events of one document after its start: no other document starts,
    and either no candidate name is reached and no rename is requested, or
    one candidate is reached, made of a name of the sanitizer and the
    extension of the original name, and a rename to it is requested exactly
    when it differs from the original name. *)
Definition rename_shape (E : environment) (item : drive_file)
    (evs : list event) : Prop :=
  started evs = []
  /\ ((candidates evs = [] /\ renames evs = [])
      \/ exists topic new_name_base,
           convert_topic_to_filename (sanitize_filename E) topic
           = Some new_name_base
           /\ candidates evs
              = [new_name_of (os_path_module E) new_name_base (item_name item)]
           /\ renames evs
              = if str_eqb
                     (new_name_of (os_path_module E) new_name_base (item_name item))
                     (item_name item)
                then []
                else [(item_id item,
                       new_name_of (os_path_module E) new_name_base
                         (item_name item))]).

Definition shaped (E : environment) (item : drive_file) {L A} (m : M L A)
    : Prop :=
  forall s, exists evs,
    trace (snd (snd (m s))) = trace (snd s) ++ evs /\ rename_shape E item evs.

(** The events from world [w] to a later world [w']. *)
Definition events_since (w w' : world) : list event :=
  skipn (length (trace w)) (trace w').

(** The texts of the pages that Tesseract reads, in page order. *)
Fixpoint ocr_texts (pages : list page) : list str :=
  match pages with
  | [] => []
  | pg :: pages' =>
      match ocr pg with
      | inr page_text => page_text :: ocr_texts pages'
      | inl _ => ocr_texts pages'
      end
  end.

(** The page texts as the specification words them: a page that Tesseract
    fails on counts as the empty text. *)
Definition ocr_texts_with_empty (pages : list page) : list str :=
  map (fun pg => match ocr pg with inr page_text => page_text | inl _ => [] end)
      pages.

(** The page is rasterized and its image is saved. *)
Definition page_saved (pg : page) : Prop :=
  rasterize pg = None /\ save pg = None.

(** What the page loop does on the pages [ps], from the local values [acc]
    and [tmp] and the world [w], with the events [evs]. *)
Record page_loop_facts (E : environment) (ps : list page) (acc : list str)
    (tmp : list path) (w : world) (r : result (list str)) (tmp' : list path) (w' : world)
    (evs : list event) : Prop := {
  loop_trace : trace w' = trace w ++ evs;
  loop_files : files w' = rev (created evs) ++ files w;
  loop_fresh : forall p, In p (created evs) -> ~ In p (files w);
  loop_distinct : NoDup (created evs);
  loop_count : length (created evs) <= length ps;
  loop_recorded :
    Forall (fun pg => save pg = None) ps -> tmp' = tmp ++ created evs;
  loop_texts :
    forall texts, r = Ret texts ->
      texts = acc ++ ocr_texts ps /\ length (created evs) = length ps;
  loop_returns :
    (forall w0, tempfile_error E w0 = None) -> Forall page_saved ps ->
    exists texts, r = Ret texts;
  loop_aborts :
    forall i pg e, nth_error ps i = Some pg -> rasterize pg = Some e ->
      (exists e', r = Raise e') /\ length (created evs) <= i
}.

(** ** Concrete collaborators, for runs on examples *)

(** Nothing fails, no PDF opens, the model answers [reply]. *)
Definition calm (reply : option str) : environment := {|
  sanitize_filename := remove_unsafe_chars;
  os_path_module := posixpath;
  tempfile_error := fun _ => None;
  remove_error := fun _ _ => None;
  fitz_open := fun _ _ => inl (Exception "cannot open");
  get_media_error := fun _ _ => None;
  download_error := fun _ _ _ => None;
  generate := fun _ _ _ => inr reply;
  update_error := fun _ _ _ => None;
  authenticate_drive := fun _ => inr true;
  input := fun _ => lit "Scans";
  list_files := fun _ _ => inr []
|}.

(** As [calm], and every PDF opens as [doc]. *)
Definition opening (doc : document) (reply : option str) : environment := {|
  sanitize_filename := remove_unsafe_chars;
  os_path_module := posixpath;
  tempfile_error := fun _ => None;
  remove_error := fun _ _ => None;
  fitz_open := fun _ _ => inr doc;
  get_media_error := fun _ _ => None;
  download_error := fun _ _ _ => None;
  generate := fun _ _ _ => inr reply;
  update_error := fun _ _ _ => None;
  authenticate_drive := fun _ => inr true;
  input := fun _ => lit "Scans";
  list_files := fun _ _ => inr []
|}.

Definition good_page (text : string) : page :=
  {| rasterize := None; save := None; ocr := inr (lit text) |}.

Definition ocr_failing_page : page :=
  {| rasterize := None; save := None; ocr := inl (Exception "TesseractError") |}.

Definition raster_failing_page (text : string) : page :=
  {| rasterize := Some (Exception "cannot rasterize"); save := None;
     ocr := inr (lit text) |}.

Definition empty_world : world := {| files := []; trace := [] |}.

(** As [E], and Drive refuses every rename. *)
Definition refusing_renames (E : environment) : environment := {|
  sanitize_filename := sanitize_filename E;
  os_path_module := os_path_module E;
  tempfile_error := tempfile_error E;
  remove_error := remove_error E;
  fitz_open := fitz_open E;
  get_media_error := get_media_error E;
  download_error := download_error E;
  generate := generate E;
  update_error := fun _ _ _ => Some (Exception "HttpError");
  authenticate_drive := authenticate_drive E;
  input := input E;
  list_files := list_files E
|}.

Definition acme_reply : str := lit " Acme Corp - Invoice Payment ".

Definition already_named : drive_file :=
  DriveFile (lit "id-1") (lit "Acme_Corp_-_Invoice_Payment.pdf").

Definition freshly_scanned : drive_file :=
  DriveFile (lit "id-2") (lit "scan0001.pdf").

Definition long_text : str := repeat (ch "x") 4001.

(** Three pages, Tesseract fails on the second. *)
Definition second_page_unreadable : document :=
  {| doc_pages := [good_page "Invoice"; ocr_failing_page; good_page "Acme"];
     close := None |}.

(** Three pages, the second cannot be rasterized. *)
Definition second_page_unrasterized : document :=
  {| doc_pages := [good_page "one"; raster_failing_page "two"; good_page "three"];
     close := None |}.


(** ** Notions of further statements *)

(** The first and the last character of a string, when it has one. *)
Definition first_char (s : str) : option char := hd_error s.

Definition last_char (s : str) : option char := hd_error (rev s).

(** The events of the inferencer: its own messages and the call of the
    model. *)
Definition inferencer_event (e : event) : Prop :=
  match e with
  | Printed (MsgTruncating _) | Printed MsgSending | Printed (MsgLlmResponse _)
  | Printed MsgLlmUnexpected | Printed (MsgLlmError _) | Generate _ _ => True
  | _ => False
  end.

(** The events of the extractor: its own messages, the creation and the
    removal of temporary files. *)
Definition extractor_event (e : event) : Prop :=
  match e with
  | Printed (MsgProcessingPages _) | Printed (MsgPageProcessed _ _)
  | Printed (MsgOcrFailed _ _) | Printed MsgOcrComplete | Printed (MsgPdfError _)
  | Printed (MsgImageCleanupError _ _) | TempFileCreated _ | FileRemoved _ => True
  | _ => False
  end.

(** The text that the inferencer puts into its prompt (lines 113-115). *)
Definition text_for_llm (text : str) : str :=
  if MAX_OCR_TEXT_FOR_LLM <? length text
  then prefix MAX_OCR_TEXT_FOR_LLM text else text.

(** The model raises at every call. *)
Definition failing_model (E : environment) : environment := {|
  sanitize_filename := sanitize_filename E;
  os_path_module := os_path_module E;
  tempfile_error := tempfile_error E;
  remove_error := remove_error E;
  fitz_open := fitz_open E;
  get_media_error := get_media_error E;
  download_error := download_error E;
  generate := fun _ _ _ => inl (Exception "ResponseError");
  update_error := update_error E;
  authenticate_drive := authenticate_drive E;
  input := input E;
  list_files := list_files E
|}.

(** Every character of the string is white space. *)
Definition blank (s : str) : Prop := Forall (fun c => isspace c = true) s.

(** A page whose image cannot be saved. *)
Definition save_failing_page (text : string) : page :=
  {| rasterize := None; save := Some (Exception "cannot save");
     ocr := inr (lit text) |}.

(** Three pages, the image of the second cannot be saved. *)
Definition second_page_unsaved : document :=
  {| doc_pages := [good_page "one"; save_failing_page "two"; good_page "three"];
     close := None |}.


(** An event that is not a prompt, a candidate name or a rename request. *)
Definition idle (e : event) : Prop :=
  match e with
  | Generate _ _ | Printed (MsgNewName _) | Update _ _ => False
  | _ => True
  end.

(** An event that is not a candidate name or a rename request. *)
Definition unnamed (e : event) : Prop :=
  match e with
  | Printed (MsgNewName _) | Update _ _ => False
  | _ => True
  end.

(** Every event of the statement [m] satisfies [P], and a value that it
    returns satisfies [R]. *)
Definition returns {L A} (R : A -> Prop) (P : event -> Prop) (m : M L A) : Prop :=
  forall s,
    (exists evs,
        trace (snd (snd (m s))) = trace (snd s) ++ evs /\ Forall P evs)
    /\ forall a, fst (m s) = Ret a -> R a.

(** The statement [m] leaves its local variables and the disk as they
    are. *)
Definition steady {L A} (m : M L A) : Prop :=
  forall s,
    fst (snd (m s)) = fst s /\ files (snd (snd (m s))) = files (snd s).

(** No PDF opens. *)
Definition no_pdf_opens (E : environment) : Prop :=
  forall w pdf_path doc, fitz_open E w pdf_path <> inr doc.

(** The model gives no topic: it raises, replies without the field
    [response], or replies with white space. *)
Definition no_topic (E : environment) : Prop :=
  forall w prompt r,
    generate E w LLM_MODEL_NAME prompt = inr (Some r) -> blank r.

(** No download, no save of an image and no removal of a file fails. *)
Definition tidy (E : environment) : Prop :=
  (forall w id p, download_error E w id p = None)
  /\ (forall w p, remove_error E w p = None)
  /\ (forall w pdf_path doc,
        fitz_open E w pdf_path = inr doc ->
        Forall (fun pg => save pg = None) (doc_pages doc)).

(** The folder [Scans] holds the two documents of the examples. *)
Definition scans_folder (E : environment) : environment := {|
  sanitize_filename := sanitize_filename E;
  os_path_module := os_path_module E;
  tempfile_error := tempfile_error E;
  remove_error := remove_error E;
  fitz_open := fitz_open E;
  get_media_error := get_media_error E;
  download_error := download_error E;
  generate := generate E;
  update_error := update_error E;
  authenticate_drive := fun _ => inr true;
  input := fun _ => lit "Scans";
  list_files := fun _ query =>
    match query with
    | 34%N :: _ => inr [freshly_scanned; already_named]
    | _ => inr [DriveFile (lit "folder-1") (lit "Scans")]
    end
|}.

(** Every download fails. *)
Definition failing_download (E : environment) : environment := {|
  sanitize_filename := sanitize_filename E;
  os_path_module := os_path_module E;
  tempfile_error := tempfile_error E;
  remove_error := remove_error E;
  fitz_open := fitz_open E;
  get_media_error := get_media_error E;
  download_error := fun _ _ _ => Some (Exception "HttpError");
  generate := generate E;
  update_error := update_error E;
  authenticate_drive := authenticate_drive E;
  input := input E;
  list_files := list_files E
|}.


(** The query for the folders of a name (line 56) and the query for the PDF
    files of a folder (line 163). *)
Definition folder_query (folder_name : str) : str :=
  lit "name='" ++ folder_name
  ++ lit "' and mimeType='application/vnd.google-apps.folder' and trashed=false".

Definition pdf_query (folder_id : str) : str :=
  dquote :: folder_id ++ dquote :: lit " in parents and mimeType="
  ++ dquote :: PDF_MIME_TYPE ++ dquote :: lit " and trashed=false".

(** ** Facts on strings *)

Lemma lstrip_idem drop s : lstrip drop (lstrip drop s) = lstrip drop s.
Proof.
  induction s as [|c s IH]; simpl; auto.
  destruct (drop c) eqn:E; auto. simpl. now rewrite E.
Qed.

Lemma lstrip_length drop s : length (lstrip drop s) <= length s.
Proof.
  induction s as [|c s IH]; simpl; auto.
  destruct (drop c); simpl; lia.
Qed.

Lemma lstrip_suffix drop s : exists pre, s = pre ++ lstrip drop s.
Proof.
  induction s as [|c s [pre IH]]; simpl.
  - now exists [].
  - destruct (drop c).
    + exists (c :: pre). simpl. now f_equal.
    + now exists [].
Qed.

Lemma rstrip_prefix drop s : exists post, s = rstrip drop s ++ post.
Proof.
  unfold rstrip. destruct (lstrip_suffix drop (rev s)) as [pre H].
  exists (rev pre).
  rewrite <- rev_app_distr, <- H. now rewrite rev_involutive.
Qed.

Lemma rstrip_idem drop s : rstrip drop (rstrip drop s) = rstrip drop s.
Proof. unfold rstrip. now rewrite rev_involutive, lstrip_idem. Qed.

Lemma rstrip_length drop s : length (rstrip drop s) <= length s.
Proof.
  unfold rstrip. rewrite length_rev.
  etransitivity; [apply lstrip_length|]. now rewrite length_rev.
Qed.

(** A string that does not start with a dropped character keeps its start
    when characters are dropped from its end. *)
Lemma lstrip_rstrip_fixed drop s :
  lstrip drop s = s -> lstrip drop (rstrip drop s) = rstrip drop s.
Proof.
  intros H. destruct (rstrip_prefix drop s) as [post P].
  destruct (rstrip drop s) as [|c r] eqn:E; auto.
  rewrite P in H. simpl in H. simpl.
  destruct (drop c) eqn:D; auto.
  exfalso.
  assert (L := lstrip_length drop (r ++ post)).
  rewrite H in L. simpl in L. lia.
Qed.

Lemma strip_with_idem drop s :
  strip_with drop (strip_with drop s) = strip_with drop s.
Proof.
  unfold strip_with.
  rewrite (lstrip_rstrip_fixed drop (lstrip drop s)) by apply lstrip_idem.
  apply rstrip_idem.
Qed.

Lemma strip_with_length drop s : length (strip_with drop s) <= length s.
Proof.
  unfold strip_with. etransitivity; [apply rstrip_length|apply lstrip_length].
Qed.

Lemma lstrip_incl drop s c : In c (lstrip drop s) -> In c s.
Proof.
  destruct (lstrip_suffix drop s) as [pre H]. intros I.
  rewrite H. apply in_or_app. now right.
Qed.

Lemma strip_with_incl drop s c : In c (strip_with drop s) -> In c s.
Proof.
  unfold strip_with, rstrip. intros I.
  apply in_rev in I. apply lstrip_incl in I. apply in_rev in I.
  now apply lstrip_incl in I.
Qed.

Lemma replace_no_old old new s :
  old <> new -> ~ In old (replace old new s).
Proof.
  intros D I. unfold replace in I. apply in_map_iff in I.
  destruct I as [c [E _]]. unfold char_eqb in E.
  destruct (N.eqb_spec c old); congruence.
Qed.


Lemma prefix_length n s : length (prefix n s) <= n.
Proof. unfold prefix. rewrite length_firstn. lia. Qed.

Lemma prefix_all n s : length s <= n -> prefix n s = s.
Proof. apply firstn_all2. Qed.

(** ** Filename sanitizer *)

Section SanitizerFacts.

Variable sf : str -> str.

Lemma trimmed_name_no_space topic : ~ In space (trimmed_name sf topic).
Proof.
  unfold trimmed_name. intros I. apply strip_with_incl in I.
  revert I. apply replace_no_old. discriminate.
Qed.


Lemma convert_topic_to_filename_eq topic :
  topic <> [] ->
  convert_topic_to_filename sf topic
  = Some (match prefix MAX_FILENAME_LENGTH (trimmed_name sf topic) with
          | [] => Untitled
          | name => name
          end).
Proof.
  intros N. destruct topic as [|c topic]; [congruence|].
  change (convert_topic_to_filename sf (c :: topic))
    with (if falsy (prefix MAX_FILENAME_LENGTH (trimmed_name sf (c :: topic)))
          then Some Untitled
          else Some (prefix MAX_FILENAME_LENGTH (trimmed_name sf (c :: topic)))).
  destruct (prefix MAX_FILENAME_LENGTH (trimmed_name sf (c :: topic)));
    reflexivity.
Qed.


End SanitizerFacts.







(** The same cut with any library function that leaves these two names as
    they are. *)
Lemma cut_exposes_underscore (sf : str -> str) :
  sf (repeat (ch "a") 149 ++ lit "_b") = repeat (ch "a") 149 ++ lit "_b" ->
  sf (repeat (ch "a") 149 ++ lit "_") = repeat (ch "a") 149 ++ lit "_" ->
  convert_topic_to_filename sf (repeat (ch "a") 149 ++ lit "_b")
  = Some (repeat (ch "a") 149 ++ lit "_")
  /\ convert_topic_to_filename sf (repeat (ch "a") 149 ++ lit "_")
     = Some (repeat (ch "a") 149).
Proof.
  intros H1 H2. split.
  - unfold convert_topic_to_filename.
    change (falsy (repeat (ch "a") 149 ++ lit "_b")) with false. cbv iota.
    rewrite H1. vm_compute. reflexivity.
  - unfold convert_topic_to_filename.
    change (falsy (repeat (ch "a") 149 ++ lit "_")) with false. cbv iota.
    rewrite H2. vm_compute. reflexivity.
Qed.

(** ** [os.path.splitext] and the candidate name *)

Lemma rfind_from_bounds s c i last :
  (last < i)%Z ->
  (last <= rfind_from s c i last < i + Z.of_nat (length s))%Z.
Proof.
  revert i last. induction s as [|x s IH]; intros i last H; simpl rfind_from.
  - simpl. lia.
  - destruct (char_eqb x c).
    + specialize (IH (i + 1)%Z i ltac:(lia)). simpl length. lia.
    + specialize (IH (i + 1)%Z last ltac:(lia)). simpl length. lia.
Qed.

Lemma rfind_from_app a t c i last :
  rfind_from (a ++ t) c i last
  = rfind_from t c (i + Z.of_nat (length a)) (rfind_from a c i last).
Proof.
  revert i last. induction a as [|x a IH]; intros i last; simpl.
  - now rewrite Z.add_0_r.
  - rewrite IH. f_equal. lia.
Qed.

Lemma rfind_from_absent s c i last :
  ~ In c s -> rfind_from s c i last = last.
Proof.
  revert i last. induction s as [|x s IH]; intros i last N; simpl; auto.
  unfold char_eqb. destruct (N.eqb_spec x c) as [->|D].
  - exfalso. apply N. now left.
  - apply IH. intros I. apply N. now right.
Qed.

Lemma rfind_absent s c : ~ In c s -> rfind s c = (-1)%Z.
Proof. apply rfind_from_absent. Qed.

Lemma rfind_bounds s c : (-1 <= rfind s c < Z.of_nat (length s))%Z.
Proof.
  unfold rfind. assert (H := rfind_from_bounds s c 0 (-1) ltac:(lia)). lia.
Qed.

(** The last occurrence. *)
Lemma rfind_last a b c :
  ~ In c b -> rfind (a ++ c :: b) c = Z.of_nat (length a).
Proof.
  intros N. unfold rfind. rewrite rfind_from_app. simpl.
  unfold char_eqb. rewrite N.eqb_refl.
  now rewrite rfind_from_absent.
Qed.

Lemma rfind_app_absent a t c : ~ In c t -> rfind (a ++ t) c = rfind a c.
Proof.
  intros N. unfold rfind. rewrite rfind_from_app.
  now apply rfind_from_absent.
Qed.

Lemma rfind_at_least a b c : (Z.of_nat (length a) <= rfind (a ++ c :: b) c)%Z.
Proof.
  unfold rfind. rewrite rfind_from_app. simpl.
  unfold char_eqb. rewrite N.eqb_refl.
  assert (H := rfind_from_bounds b c (Z.of_nat (length a) + 1)
                 (Z.of_nat (length a)) ltac:(lia)).
  lia.
Qed.

Lemma is_sep_false os c :
  is_sep os c = false ->
  c <> os_sep os /\ forall a, os_altsep os = Some a -> c <> a.
Proof.
  unfold is_sep, char_eqb. intros H. apply orb_false_iff in H.
  destruct H as [H1 H2]. split.
  - intros ->. now rewrite N.eqb_refl in H1.
  - intros a Ha. rewrite Ha in H2. intros ->. now rewrite N.eqb_refl in H2.
Qed.

Lemma is_sep_true os c :
  is_sep os c = true -> c = os_sep os \/ os_altsep os = Some c.
Proof.
  unfold is_sep, char_eqb. intros H. apply orb_true_iff in H.
  destruct H as [H|H].
  - left. now apply N.eqb_eq.
  - right. destruct (os_altsep os); [|discriminate].
    apply N.eqb_eq in H. now subst.
Qed.

Lemma sep_not_dot os c : is_sep os c = true -> c <> dot.
Proof. intros H ->. destruct os; discriminate H. Qed.

Lemma no_sep_absent os s :
  no_sep os s ->
  ~ In (os_sep os) s /\ forall a, os_altsep os = Some a -> ~ In a s.
Proof.
  intros H. split.
  - intros I. apply H in I. apply is_sep_false in I. now destruct I.
  - intros a Ha I. apply H in I. apply is_sep_false in I.
    destruct I as [_ I]. now apply (I a).
Qed.

Lemma sepIndex_of_none os p : no_sep os p -> sepIndex_of os p = (-1)%Z.
Proof.
  intros H. destruct (no_sep_absent os p H) as [H1 H2].
  unfold sepIndex_of. destruct (os_altsep os) as [a|].
  - rewrite rfind_absent by assumption.
    rewrite rfind_absent by now apply H2. reflexivity.
  - now apply rfind_absent.
Qed.

Lemma rfind_before a x b c :
  ~ In c b -> (rfind (a ++ x :: b) c <= Z.of_nat (length a))%Z.
Proof.
  intros Hc. destruct (N.eq_dec x c) as [->|D].
  - rewrite rfind_last by assumption. lia.
  - rewrite rfind_app_absent.
    + assert (H := rfind_bounds a c). lia.
    + intros [I|I]; auto.
Qed.

Lemma sepIndex_of_last os a s b :
  is_sep os s = true -> no_sep os b ->
  sepIndex_of os (a ++ s :: b) = Z.of_nat (length a).
Proof.
  intros Hs Hb. destruct (no_sep_absent os b Hb) as [H1 H2].
  unfold sepIndex_of. destruct (is_sep_true os s Hs) as [->|Ha].
  - rewrite rfind_last by assumption.
    destruct (os_altsep os) as [alt|]; auto.
    assert (H := rfind_before a (os_sep os) b alt (H2 alt eq_refl)). lia.
  - rewrite Ha. rewrite (rfind_last a b s) by now apply H2.
    assert (H := rfind_before a s b (os_sep os) H1). lia.
Qed.

Lemma sepIndex_of_at_least os a s b :
  is_sep os s = true -> (Z.of_nat (length a) <= sepIndex_of os (a ++ s :: b))%Z.
Proof.
  intros Hs. unfold sepIndex_of. destruct (is_sep_true os s Hs) as [->|Ha].
  - assert (H := rfind_at_least a b (os_sep os)).
    destruct (os_altsep os); lia.
  - rewrite Ha. assert (H := rfind_at_least a b s). lia.
Qed.

Lemma slice_one pre x rest :
  slice (pre ++ x :: rest) (Z.of_nat (length pre)) (Z.of_nat (length pre) + 1)
  = [x].
Proof.
  unfold slice. rewrite Nat2Z.id.
  replace (Z.to_nat (Z.of_nat (length pre) + 1 - Z.of_nat (length pre)))
    with 1 by lia.
  rewrite skipn_app, skipn_all, Nat.sub_diag. reflexivity.
Qed.

Lemma str_eqb_one x c : str_eqb [x] [c] = char_eqb x c.
Proof. simpl. apply andb_true_r. Qed.

(** The loop leaves with the split as soon as it meets a character that is
    not a dot, and falls out of a run of dots. *)
Lemma _splitext_loop_spec pre stem rest dotIndex :
  _splitext_loop (length stem) (pre ++ stem ++ rest) dot
    (Z.of_nat (length pre)) dotIndex
  = if forallb (fun c => char_eqb c dot) stem then None
    else Some (firstn (Z.to_nat dotIndex) (pre ++ stem ++ rest),
               skipn (Z.to_nat dotIndex) (pre ++ stem ++ rest)).
Proof.
  revert pre. induction stem as [|x stem IH]; intros pre; simpl.
  - reflexivity.
  - rewrite slice_one, str_eqb_one.
    destruct (char_eqb x dot) eqn:Ex; simpl; auto.
    specialize (IH (pre ++ [x])).
    rewrite <- app_assoc in IH. simpl in IH.
    rewrite length_app in IH. simpl in IH.
    replace (Z.of_nat (length pre + 1)) with (Z.of_nat (length pre) + 1)%Z
      in IH by lia.
    exact IH.
Qed.

Lemma sepIndex_of_component os dir comp :
  ends_directory os dir -> no_sep os comp ->
  sepIndex_of os (dir ++ comp) = (Z.of_nat (length dir) - 1)%Z.
Proof.
  intros [->|[d [s [-> Hs]]]] Hc.
  - simpl. now apply sepIndex_of_none.
  - rewrite <- app_assoc. simpl. rewrite sepIndex_of_last by assumption.
    rewrite length_app. simpl. lia.
Qed.

Lemma splitext_sepIndex os p :
  splitext os p
  = let sepIndex := sepIndex_of os p in
    let dotIndex := rfind p dot in
    match (if (sepIndex <? dotIndex)%Z
           then _splitext_loop (Z.to_nat (dotIndex - (sepIndex + 1))) p dot
                  (sepIndex + 1) dotIndex
           else None) with
    | Some r => r
    | None => (p, [])
    end.
Proof.
  unfold splitext, _splitext, sepIndex_of. destruct (os_altsep os); reflexivity.
Qed.

(** The split of a name whose last dot lies in its last component. *)
Lemma splitext_component os dir stem ext :
  ends_directory os dir -> no_sep os stem -> no_sep os ext -> ~ In dot ext ->
  splitext os (dir ++ stem ++ dot :: ext)
  = if forallb (fun c => char_eqb c dot) stem
    then (dir ++ stem ++ dot :: ext, [])
    else (dir ++ stem, dot :: ext).
Proof.
  intros Hd Hs He Hx. rewrite splitext_sepIndex. cbv zeta.
  assert (Hcomp : no_sep os (stem ++ dot :: ext)).
  { intros c I. apply in_app_or in I. destruct I as [I|[<-|I]]; auto.
    destruct os; reflexivity. }
  rewrite (sepIndex_of_component os dir _ Hd Hcomp).
  assert (Hdot : rfind (dir ++ stem ++ dot :: ext) dot
                 = Z.of_nat (length dir + length stem)).
  { rewrite app_assoc. rewrite rfind_last by assumption.
    now rewrite length_app. }
  rewrite Hdot.
  replace (Z.of_nat (length dir) - 1 + 1)%Z with (Z.of_nat (length dir)) by lia.
  replace (Z.to_nat (Z.of_nat (length dir + length stem) - Z.of_nat (length dir)))
    with (length stem) by lia.
  replace (Z.of_nat (length dir) - 1 <? Z.of_nat (length dir + length stem))%Z
    with true by (symmetry; apply Z.ltb_lt; lia).
  rewrite _splitext_loop_spec.
  destruct (forallb (fun c => char_eqb c dot) stem); auto.
  rewrite Nat2Z.id. rewrite (app_assoc dir stem).
  rewrite <- length_app.
  rewrite firstn_app, firstn_all, Nat.sub_diag. simpl firstn.
  rewrite app_nil_r.
  rewrite skipn_app, skipn_all, Nat.sub_diag. reflexivity.
Qed.

Lemma splitext_no_dot os p : ~ In dot p -> splitext os p = (p, []).
Proof.
  intros H. rewrite splitext_sepIndex. cbv zeta.
  rewrite (rfind_absent p dot H).
  assert (B : (-1 <= sepIndex_of os p)%Z).
  { unfold sepIndex_of.
    assert (B1 := rfind_bounds p (os_sep os)).
    destruct (os_altsep os); lia. }
  replace (sepIndex_of os p <? -1)%Z with false; auto.
  symmetry. apply Z.ltb_ge. lia.
Qed.

Lemma splitext_sep_after_dot os pre s rest :
  is_sep os s = true -> ~ In dot rest ->
  splitext os (pre ++ s :: rest) = (pre ++ s :: rest, []).
Proof.
  intros Hs Hr. rewrite splitext_sepIndex. cbv zeta.
  assert (B := sepIndex_of_at_least os pre s rest Hs).
  assert (D : (rfind (pre ++ s :: rest) dot < Z.of_nat (length pre))%Z).
  { rewrite rfind_app_absent.
    - apply rfind_bounds.
    - intros [I|I]; auto. now apply (sep_not_dot os s). }
  replace (sepIndex_of os (pre ++ s :: rest) <? rfind (pre ++ s :: rest) dot)%Z
    with false; auto.
  symmetry. apply Z.ltb_ge. lia.
Qed.

Lemma forallb_dots stem :
  forallb (fun c => char_eqb c dot) stem = true <-> forall c, In c stem -> c = dot.
Proof.
  rewrite forallb_forall. unfold char_eqb. split; intros H c I.
  - now apply N.eqb_eq, H.
  - now apply N.eqb_eq, H.
Qed.

(** C10, as the code has it: the candidate is the sanitized base followed by
    the extension of [os.path.splitext]. That extension starts at the last
    dot of the original name when the dot lies in the last path component
    and a character other than a dot stands before it in that component.
    Nothing is appended when the name has no dot, when a path separator
    follows the last dot, or when only dots stand before it in the last
    component. *)
Theorem new_name_of_splitext (os : os_path) (new_name_base original_name : str) :
  (forall dir stem ext,
      original_name = dir ++ stem ++ dot :: ext ->
      ends_directory os dir -> no_sep os stem ->
      (exists c, In c stem /\ c <> dot) ->
      no_sep os ext -> ~ In dot ext ->
      new_name_of os new_name_base original_name = new_name_base ++ dot :: ext)
  /\ (~ In dot original_name ->
      new_name_of os new_name_base original_name = new_name_base)
  /\ (forall pre s rest,
      original_name = pre ++ s :: rest ->
      is_sep os s = true -> ~ In dot rest ->
      new_name_of os new_name_base original_name = new_name_base)
  /\ (forall dir dots ext,
      original_name = dir ++ dots ++ dot :: ext ->
      ends_directory os dir -> (forall c, In c dots -> c = dot) ->
      no_sep os ext -> ~ In dot ext ->
      new_name_of os new_name_base original_name = new_name_base).
Proof.
  unfold new_name_of. repeat split.
  - intros dir stem ext -> Hd Hs [c [Ic Nc]] He Hx.
    rewrite splitext_component by assumption.
    destruct (forallb (fun c => char_eqb c dot) stem) eqn:F; auto.
    exfalso. apply Nc. rewrite forallb_dots in F. now apply F.
  - intros H. rewrite splitext_no_dot by assumption. apply app_nil_r.
  - intros pre s rest -> Hs Hr.
    rewrite splitext_sep_after_dot by assumption. apply app_nil_r.
  - intros dir dots ext -> Hd Hs He Hx.
    rewrite splitext_component; try assumption.
    + replace (forallb (fun c => char_eqb c dot) dots) with true.
      * apply app_nil_r.
      * symmetry. now apply forallb_dots.
    + intros c I. rewrite (Hs c I). destruct os; reflexivity.
Qed.

(** Membership in a literal, case by case. *)
Ltac in_literal I :=
  vm_compute in I;
  repeat (destruct I as [I|I]; [try discriminate I; try (subst; reflexivity)|]);
  try contradiction.

Lemma new_name_of_splitext_witness :
  new_name_of posixpath (lit "Topic") (lit "scans/inv.2024.pdf") = lit "Topic.pdf"
  /\ new_name_of posixpath (lit "Topic") (lit "scan") = lit "Topic"
  /\ new_name_of posixpath (lit "Topic") (lit "v1.2/scan") = lit "Topic"
  /\ new_name_of posixpath (lit "Topic") (lit "..pdf") = lit "Topic".
Proof.
  split; [|split; [|split]].
  - apply (proj1 (new_name_of_splitext posixpath (lit "Topic")
                    (lit "scans/inv.2024.pdf"))
             (lit "scans/") (lit "inv.2024") (lit "pdf")).
    + reflexivity.
    + right. exists (lit "scans"), slash. split; reflexivity.
    + intros c I. in_literal I.
    + exists (ch "i"). split; [now left | discriminate].
    + intros c I. in_literal I.
    + intros I. in_literal I.
  - apply (proj1 (proj2 (new_name_of_splitext posixpath (lit "Topic")
                           (lit "scan")))).
    intros I. in_literal I.
  - apply (proj1 (proj2 (proj2 (new_name_of_splitext posixpath (lit "Topic")
                                  (lit "v1.2/scan"))))
             (lit "v1.2") slash (lit "scan")).
    + reflexivity.
    + reflexivity.
    + intros I. in_literal I.
  - apply (proj2 (proj2 (proj2 (new_name_of_splitext posixpath (lit "Topic")
                                  (lit "..pdf"))))
             [] (lit ".") (lit "pdf")).
    + reflexivity.
    + now left.
    + intros c I. in_literal I.
    + intros c I. in_literal I.
    + intros I. in_literal I.
Defined.

(** C10 as stated fails on a name that starts with its only dot: splitting
    [.pdf] at the last dot gives the extension [.pdf], but the code appends
    nothing. *)
Lemma new_name_of_leading_dot :
  new_name_of posixpath (lit "Topic") (lit ".pdf") = lit "Topic"
  /\ lit "Topic" ++ extension_at_last_dot (lit ".pdf") = lit "Topic.pdf"
  /\ new_name_of posixpath (lit "Topic") (lit ".pdf")
     <> lit "Topic" ++ extension_at_last_dot (lit ".pdf").
Proof.
  split; [reflexivity|]. split; [reflexivity|].
  vm_compute. discriminate.
Qed.

(** ** Text extractor *)

Section ExtractorFacts.

  Variable E : environment.

Lemma ocr_page_eq doc i pg acc tmp w :
  nth_error (doc_pages doc) i = Some pg ->
  ocr_page E doc i acc (tmp, w)
  = match rasterize pg with
    | Some e => (Raise e, (tmp, w))
    | None =>
        match tempfile_error E w with
        | Some e => (Raise e, (tmp, w))
        | None =>
            let p := fresh_path (files w) in
            let tr := trace w ++ [TempFileCreated p] in
            match save pg with
            | Some e => (Raise e, (tmp, World (p :: files w) tr))
            | None =>
                match ocr pg with
                | inr page_text =>
                    (Ret (acc ++ [page_text]),
                     (tmp ++ [p],
                      World (p :: files w)
                        (tr ++ [Printed (MsgPageProcessed (i + 1) (page_count doc))])))
                | inl e =>
                    (Ret acc,
                     (tmp ++ [p],
                      World (p :: files w) (tr ++ [Printed (MsgOcrFailed (i + 1) e)])))
                end
            end
        end
    end.
Proof.
  intros H. unfold ocr_page. rewrite H.
  unfold NamedTemporaryFile, try_except, get_local, set_local, print, emit, ret, bind, attempt, ask.
  cbn.
  destruct (rasterize pg); [reflexivity|]. cbn.
  destruct (tempfile_error E w); [reflexivity|]. cbn.
  destruct (save pg); [reflexivity|]. cbn.
  destruct (ocr pg); reflexivity.
Qed.

Lemma fresh_path_not_on_disk fs : ~ In (fresh_path fs) fs.
Proof.
  unfold fresh_path. intros I.
  assert (H : Forall (fun k => k <= list_max fs) fs) by now apply list_max_le.
  rewrite Forall_forall in H. apply H in I. lia.
Qed.

Lemma created_app a b : created (a ++ b) = created a ++ created b.
Proof.
  induction a as [|e a IH]; simpl; auto.
  destruct e; simpl; now rewrite ?IH.
Qed.



Lemma ocr_page_cases doc i pg acc tmp w :
  nth_error (doc_pages doc) i = Some pg ->
  let p := fresh_path (files w) in
  (exists e,
      ocr_page E doc i acc (tmp, w) = (Raise e, (tmp, w))
      /\ (rasterize pg = Some e
          \/ rasterize pg = None /\ tempfile_error E w = Some e))
  \/ (exists e,
      ocr_page E doc i acc (tmp, w)
      = (Raise e, (tmp, World (p :: files w) (trace w ++ [TempFileCreated p])))
      /\ rasterize pg = None /\ save pg = Some e)
  \/ (exists m,
      ocr_page E doc i acc (tmp, w)
      = (Ret (acc ++ ocr_texts [pg]),
         (tmp ++ [p],
          World (p :: files w) (trace w ++ [TempFileCreated p; Printed m])))
      /\ rasterize pg = None /\ save pg = None).
Proof.
  intros H p. rewrite (ocr_page_eq doc i pg) by assumption. fold p.
  destruct (rasterize pg) as [e|]; [left; eauto|].
  destruct (tempfile_error E w) as [e|]; [left; eauto|].
  cbv zeta.
  destruct (save pg) as [e|]; [right; left; eauto|].
  right; right. simpl ocr_texts.
  destruct (ocr pg) as [e|page_text]; eexists; rewrite <- app_assoc; simpl;
    rewrite ?app_nil_r; eauto.
Qed.

Lemma page_loop doc : forall ps pre acc tmp w r tmp' w',
  doc_pages doc = pre ++ ps ->
  for_fold (seq (length pre) (length ps)) (ocr_page E doc) acc (tmp, w)
  = (r, (tmp', w')) ->
  exists evs, page_loop_facts E ps acc tmp w r tmp' w' evs.
Proof.
  induction ps as [|pg ps IH]; intros pre acc tmp w r tmp' w' Hdoc R.
  - simpl in R. injection R as <- <- <-. exists [].
    split; simpl; rewrite ?app_nil_r.
    + reflexivity.
    + reflexivity.
    + intros p [].
    + constructor.
    + lia.
    + reflexivity.
    + intros texts [= <-]. auto.
    + eauto.
    + intros [|i] pg e; discriminate.
  - assert (Hn : nth_error (doc_pages doc) (length pre) = Some pg).
    { rewrite Hdoc, nth_error_app2, Nat.sub_diag by lia. reflexivity. }
    simpl in R. unfold bind in R.
    destruct (ocr_page_cases doc (length pre) pg acc tmp w Hn)
      as [[e [Q C]]|[[e [Q [Cr Cs]]]|[m [Q [Cr Cs]]]]]; rewrite Q in R.
    + injection R as <- <- <-. exists [].
      split; simpl; rewrite ?app_nil_r.
      * reflexivity.
      * reflexivity.
      * intros p [].
      * constructor.
      * lia.
      * reflexivity.
      * discriminate.
      * intros HT HF. inversion HF as [|? ? [? ?] ?]; subst.
        destruct C as [C|[_ C]]; [congruence|]. rewrite HT in C. discriminate.
      * intros i pg' e' Hi Hr. split; [eauto|lia].
    + injection R as <- <- <-.
      exists [TempFileCreated (fresh_path (files w))].
      split; simpl.
      * reflexivity.
      * reflexivity.
      * intros p [<-|[]]. apply fresh_path_not_on_disk.
      * constructor; [intros []|constructor].
      * lia.
      * intros HF. inversion HF; subst. congruence.
      * discriminate.
      * intros _ HF. inversion HF as [|? ? [? ?] ?]; subst. congruence.
      * intros [|i] pg' e' Hi Hr; simpl in Hi.
        -- injection Hi as <-. congruence.
        -- split; [eauto|lia].
    + specialize (IH (pre ++ [pg]) (acc ++ ocr_texts [pg])
                     (tmp ++ [fresh_path (files w)])
                     (World (fresh_path (files w) :: files w)
                        (trace w ++ [TempFileCreated (fresh_path (files w)); Printed m]))
                     r tmp' w').
      rewrite length_app in IH. simpl length in IH.
      replace (length pre + 1) with (S (length pre)) in IH by lia.
      destruct IH as [evs [I1 I2 I3 ID I4 I5 I6 I7 I8]].
      { rewrite Hdoc, <- app_assoc. reflexivity. }
      { exact R. }
      simpl in I1, I2, I3.
      exists (TempFileCreated (fresh_path (files w)) :: Printed m :: evs).
      split; simpl.
      * rewrite I1, <- app_assoc. reflexivity.
      * rewrite I2, <- app_assoc. reflexivity.
      * intros p [<-|I]; [apply fresh_path_not_on_disk|].
        intros J. apply (I3 p I). now right.
      * constructor; [|exact ID].
        intros I. apply (I3 _ I). now left.
      * lia.
      * intros HF. inversion HF; subst. rewrite I5 by assumption.
        rewrite <- app_assoc. reflexivity.
      * intros texts Ht. destruct (I6 texts Ht) as [-> ->].
        split; [|reflexivity]. rewrite <- app_assoc. f_equal.
        simpl. destruct (ocr pg); reflexivity.
      * intros HT HF. inversion HF; subst. now apply I7.
      * intros [|i] pg' e' Hi Hr; simpl in Hi.
        -- injection Hi as <-. congruence.
        -- destruct (I8 i pg' e' Hi Hr) as [X Y]. split; [exact X|lia].
Qed.

Lemma on_disk_In p fs : on_disk p fs = true <-> In p fs.
Proof.
  unfold on_disk. rewrite existsb_exists. split.
  - intros [q [I Q]]. apply Nat.eqb_eq in Q. now subst.
  - intros I. exists p. split; auto. apply Nat.eqb_refl.
Qed.

Lemma on_disk_not_In p fs : on_disk p fs = false <-> ~ In p fs.
Proof.
  rewrite <- on_disk_In. destruct (on_disk p fs); split; congruence.
Qed.

Lemma delete_file_absent p fs : ~ In p fs -> delete_file p fs = fs.
Proof.
  unfold delete_file. induction fs as [|q fs IH]; simpl; auto. intros Hp.
  destruct (Nat.eqb_spec p q) as [->|D]; simpl.
  - exfalso. apply Hp. now left.
  - rewrite IH; auto.
Qed.

Lemma filter_delete_file p l fs :
  filter (fun q => negb (on_disk q l)) (delete_file p fs)
  = filter (fun q => negb (on_disk q (p :: l))) fs.
Proof.
  unfold delete_file. induction fs as [|q fs IH]; simpl; auto.
  rewrite (Nat.eqb_sym q p).
  destruct (Nat.eqb p q); simpl; rewrite IH; reflexivity.
Qed.

Lemma remove_image_temp_file_run p (L0 : list path) w :
  remove_image_temp_file E p (L0, w)
  = (Ret tt,
     (L0,
      if on_disk p (files w) then
        match remove_error E w p with
        | None => World (delete_file p (files w)) (trace w ++ [FileRemoved p])
        | Some e => World (files w) (trace w ++ [Printed (MsgImageCleanupError p e)])
        end
      else w)).
Proof.
  unfold remove_image_temp_file, try_except, os_remove, bind, os_path_exists,
    attempt, print, emit, ret, raise.
  cbn.
  destruct (on_disk p (files w)) eqn:D; cbn; [|reflexivity].
  rewrite D. cbn.
  destruct (remove_error E w p); reflexivity.
Qed.

(** The [finally] block of the extractor never raises, creates no file, and
    removes every listed file from the disk when [os.remove] does not fail. *)
Lemma remove_listed_files (L0 : list path) : forall l w,
  exists w' evs,
    for_each l (remove_image_temp_file E) (L0, w) = (Ret tt, (L0, w'))
    /\ trace w' = trace w ++ evs
    /\ created evs = []
    /\ ((forall w0 p, remove_error E w0 p = None) ->
        files w' = filter (fun q => negb (on_disk q l)) (files w)).
Proof.
  induction l as [|p l IH]; intros w.
  - exists w, []. simpl. rewrite app_nil_r. repeat split; auto.
    intros _. induction (files w) as [|q fs IHfs]; simpl; congruence.
  - simpl for_each. unfold bind at 1. rewrite remove_image_temp_file_run.
    match goal with |- context [for_each l _ (L0, ?w1)] =>
      destruct (IH w1) as [w' [evs [Q [T [C F]]]]] end.
    destruct (on_disk p (files w)) eqn:D.
    + destruct (remove_error E w p) as [e|] eqn:Rm.
      * exists w', (Printed (MsgImageCleanupError p e) :: evs).
        split; [exact Q|]. split; [|split].
        -- rewrite T. simpl. rewrite <- app_assoc. reflexivity.
        -- exact C.
        -- intros HR. rewrite HR in Rm. discriminate.
      * exists w', (FileRemoved p :: evs).
        split; [exact Q|]. split; [|split].
        -- rewrite T. simpl. rewrite <- app_assoc. reflexivity.
        -- exact C.
        -- intros HR. rewrite (F HR). simpl files. apply filter_delete_file.
    + exists w', evs. split; [exact Q|]. split; [exact T|]. split; [exact C|].
      intros HR. rewrite (F HR).
      rewrite <- (delete_file_absent p (files w)) at 1
        by now apply on_disk_not_In.
      apply filter_delete_file.
Qed.


Lemma bind_ret_run {L A B} (m : M L A) (k : A -> M L B) s a s' :
  m s = (Ret a, s') -> bind m k s = k a s'.
Proof. intros H. unfold bind. now rewrite H. Qed.

Lemma try_finally_run {L A} (m : M L A) final s r s' s'' :
  m s = (r, s') -> final s' = (Ret tt, s'') -> try_finally m final s = (r, s'').
Proof. intros H F. unfold try_finally. now rewrite H, F. Qed.

Lemma call_run {L L' A} (init : L') (m : M L' A) (l : L) w r l' w' :
  m (init, w) = (r, (l', w')) -> call init m (l, w) = (r, (l, w')).
Proof. intros H. unfold call. cbn [fst snd]. now rewrite H. Qed.

Lemma print_run {L} (m : message) (l : L) w :
  print m (l, w) = (Ret tt, (l, World (files w) (trace w ++ [Printed m]))).
Proof. reflexivity. Qed.

Lemma perform_ocr_on_pdf_run {L} (l : L) w pdf_path doc :
  fitz_open E w pdf_path = inr doc ->
  exists r0 tmp' w2 evs_loop w' evs,
    page_loop_facts E (doc_pages doc) [] []
      (World (files w) (trace w ++ [Printed (MsgProcessingPages (page_count doc))]))
      r0 tmp' w2 evs_loop
    /\ perform_ocr_on_pdf E pdf_path (l, w)
       = (Ret (match r0 with
               | Ret pages =>
                   match close doc with
                   | None => Some (strip (join newline pages))
                   | Some _ => None
                   end
               | Raise _ => None
               end), (l, w'))
    /\ trace w' = trace w ++ evs
    /\ created evs = created evs_loop
    /\ ((forall w0 p, remove_error E w0 p = None) ->
        files w' = filter (fun q => negb (on_disk q tmp')) (files w2)).
Proof.
  intros Hopen.
  destruct (for_fold (seq 0 (page_count doc)) (ocr_page E doc) []
              ([], World (files w)
                     (trace w ++ [Printed (MsgProcessingPages (page_count doc))])))
    as [r0 [tmp' w2]] eqn:Loop.
  destruct (page_loop doc (doc_pages doc) [] _ _ _ _ _ _ eq_refl Loop)
    as [evs_loop Facts].
  exists r0, tmp', w2, evs_loop.
  (* the [try] statement with its handler *)
  assert (Try : exists out mid,
    try_except
      (doc <- ask (fun w => fitz_open E w pdf_path) ;;
       print (MsgProcessingPages (page_count doc)) ;;
       pages <- for_fold (seq 0 (page_count doc)) (ocr_page E doc) [] ;;
       let text := join newline pages in
       print MsgOcrComplete ;;
       attempt (fun _ => close doc) ;;
       ret (Some text))
      (fun e => print (MsgPdfError e) ;; ret None) ([], w)
    = (Ret out, (tmp', World (files w2) (trace w2 ++ mid)))
    /\ created mid = []
    /\ option_map strip out
       = match r0 with
         | Ret pages =>
             match close doc with
             | None => Some (strip (join newline pages))
             | Some _ => None
             end
         | Raise _ => None
         end).
  { unfold try_except, bind at 1, ask. cbn [snd]. rewrite Hopen.
    unfold bind at 1. rewrite print_run. unfold bind at 1. rewrite Loop.
    destruct r0 as [pages|e].
    - cbv zeta. unfold bind at 1. rewrite print_run.
      unfold bind, attempt, ret. cbn [snd].
      destruct (close doc) as [e|].
      + exists None, [Printed MsgOcrComplete; Printed (MsgPdfError e)].
        rewrite print_run. cbn. rewrite <- app_assoc. auto.
      + exists (Some (join newline pages)), [Printed MsgOcrComplete]. auto.
    - exists None, [Printed (MsgPdfError e)].
      unfold bind. rewrite print_run. auto. }
  destruct Try as [out [mid [Try [Cmid Out]]]].
  destruct (remove_listed_files tmp' tmp' (World (files w2) (trace w2 ++ mid)))
    as [w' [evs_clean [Clean [Tc [Cc Fc]]]]].
  exists w', ([Printed (MsgProcessingPages (page_count doc))] ++ evs_loop ++ mid
              ++ evs_clean).
  split; [exact Facts|]. split; [|split; [|split]].
  - unfold perform_ocr_on_pdf. apply call_run with (l' := tmp').
    rewrite <- Out.
    rewrite (bind_ret_run _ _ _ out (tmp', w')); [reflexivity|].
    eapply try_finally_run; [exact Try|].
    unfold remove_image_temp_files, bind, get_local. cbn [fst]. exact Clean.
  - rewrite Tc. simpl trace. rewrite (loop_trace _ _ _ _ _ _ _ _ _ Facts).
    simpl trace. rewrite <- !app_assoc. reflexivity.
  - rewrite !created_app, Cmid, Cc. simpl. now rewrite app_nil_r.
  - intros HR. rewrite (Fc HR). reflexivity.
Qed.

Lemma events_since_app w w' evs :
  trace w' = trace w ++ evs -> events_since w w' = evs.
Proof.
  intros H. unfold events_since. rewrite H.
  rewrite skipn_app, skipn_all, Nat.sub_diag. reflexivity.
Qed.

Lemma filter_none {A} (f : A -> bool) l :
  (forall x, In x l -> f x = false) -> filter f l = [].
Proof.
  induction l as [|x l IH]; simpl; auto. intros H.
  rewrite (H x) by now left. apply IH. intros y I. apply H. now right.
Qed.

Lemma filter_all {A} (f : A -> bool) l :
  (forall x, In x l -> f x = true) -> filter f l = l.
Proof.
  induction l as [|x l IH]; simpl; auto. intros H.
  rewrite (H x) by now left. f_equal. apply IH. intros y I. apply H. now right.
Qed.

Lemma filter_created_files cr fs :
  (forall p, In p cr -> ~ In p fs) ->
  filter (fun q => negb (on_disk q cr)) (rev cr ++ fs) = fs.
Proof.
  intros H. rewrite filter_app.
  rewrite filter_none, filter_all; auto.
  - intros q I. destruct (on_disk q cr) eqn:D; auto.
    apply on_disk_In in D. exfalso. now apply (H q).
  - intros q I. apply in_rev in I. apply on_disk_In in I. now rewrite I.
Qed.

(** The extractor on a PDF that opens. *)
Lemma perform_ocr_on_pdf_opened {L} (l : L) w pdf_path doc :
  fitz_open E w pdf_path = inr doc ->
  exists r0 out w',
    perform_ocr_on_pdf E pdf_path (l, w) = (Ret out, (l, w'))
    /\ out = match r0 with
             | Ret pages =>
                 match close doc with
                 | None => Some (strip (join newline pages))
                 | Some _ => None
                 end
             | Raise _ => None
             end
    /\ NoDup (created (events_since w w'))
    /\ length (created (events_since w w')) <= page_count doc
    /\ (forall pages, r0 = Ret pages ->
        pages = ocr_texts (doc_pages doc)
        /\ length (created (events_since w w')) = page_count doc)
    /\ ((forall w0, tempfile_error E w0 = None) ->
        Forall page_saved (doc_pages doc) -> exists pages, r0 = Ret pages)
    /\ (forall i pg e,
        nth_error (doc_pages doc) i = Some pg -> rasterize pg = Some e ->
        (exists e', r0 = Raise e') /\ length (created (events_since w w')) <= i)
    /\ (Forall (fun pg => save pg = None) (doc_pages doc) ->
        (forall w0 p, remove_error E w0 p = None) ->
        files w' = files w
        /\ forall p, In p (created (events_since w w')) -> ~ In p (files w')).
Proof.
  intros Hopen.
  destruct (perform_ocr_on_pdf_run l w pdf_path doc Hopen)
    as [r0 [tmp' [w2 [evs_loop [w' [evs [Facts [Run [T [C F]]]]]]]]]].
  destruct Facts as [F1 F2 F3 FD F4 F5 F6 F7 F8].
  eexists r0, _, w'. split; [exact Run|]. split; [reflexivity|].
  rewrite (events_since_app w w' evs T), C.
  split; [exact FD|]. split; [exact F4|]. split; [exact F6|].
  split; [exact F7|]. split; [exact F8|].
  intros Hs Hr. simpl in F2, F3, F5.
  assert (Fw : files w' = files w).
  { rewrite (F Hr), F2, (F5 Hs). now apply filter_created_files. }
  split; [exact Fw|]. intros p I. rewrite Fw. now apply F3.
Qed.
End ExtractorFacts.




(** C3, as the code has it: a page that cannot be rasterized ends the
    extraction of the document. The extractor returns [None], so that no
    page contributes text, and creates no temporary image for that page or
    a later one; when no save of an image and no removal fails, the images
    of the pages before it are gone at the return. *)
Theorem perform_ocr_on_pdf_rasterization_failure (E : environment) {L : Type}
    (l : L) (w : world) (pdf_path : path) (doc : document)
    (page_num : nat) (pg : page) (e : exn) :
  fitz_open E w pdf_path = inr doc ->
  nth_error (doc_pages doc) page_num = Some pg ->
  rasterize pg = Some e ->
  let run := perform_ocr_on_pdf E pdf_path (l, w) in
  let made := created (events_since w (final_world run)) in
  outcome run = Ret None
  /\ length made <= page_num
  /\ (Forall (fun pg => save pg = None) (doc_pages doc) ->
      (forall w0 p, remove_error E w0 p = None) ->
      files (final_world run) = files w
      /\ forall p, In p made -> ~ In p (files (final_world run))).
Proof.
  intros Hopen Hpg Hr run made.
  destruct (perform_ocr_on_pdf_opened E l w pdf_path doc Hopen)
    as [r0 [out [w' [Run [Out [_ [_ [_ [_ [A F]]]]]]]]]].
  subst made run. rewrite Run. unfold outcome, final_world. cbn [fst snd].
  destruct (A page_num pg e Hpg Hr) as [[e' ->] Len].
  subst out. split; [reflexivity|]. split; [exact Len|exact F].
Qed.

Lemma perform_ocr_on_pdf_rasterization_failure_witness :
  let run := perform_ocr_on_pdf (opening second_page_unrasterized None) 7
               (tt, empty_world) in
  let made := created (events_since empty_world (final_world run)) in
  outcome run = Ret None
  /\ length made <= 1
  /\ files (final_world run) = []
  /\ forall p, In p made -> ~ In p (files (final_world run)).
Proof.
  destruct (perform_ocr_on_pdf_rasterization_failure
              (opening second_page_unrasterized None) tt empty_world 7
              second_page_unrasterized 1 (raster_failing_page "two")
              (Exception "cannot rasterize") eq_refl eq_refl eq_refl)
    as [A [B F]].
  split; [exact A|]. split; [exact B|].
  apply F; [|reflexivity]. repeat constructor.
Defined.

(** C3 as stated fails on its own example: with the second of three pages
    not rasterized, the first and the third page contribute no text, the
    result being [None], and one temporary image is created, not three. *)
Lemma perform_ocr_on_pdf_second_page_unrasterized :
  let run := perform_ocr_on_pdf (opening second_page_unrasterized None) 7
               (tt, empty_world) in
  outcome run = Ret None
  /\ outcome run <> Ret (Some (strip (join newline [lit "one"; lit "three"])))
  /\ length (created (events_since empty_world (final_world run))) = 1.
Proof.
  split; [reflexivity|]. split; [|reflexivity]. vm_compute. discriminate.
Qed.

(** C5, as the code has it: on a PDF that opens, whose pages are all
    rasterized and saved, with no failing file creation and a [close] that
    does not fail, the result is the texts of the pages that Tesseract read,
    in page order, joined by one newline and stripped; a page on which
    Tesseract failed is left out of the joined sequence. *)
Theorem perform_ocr_on_pdf_text (E : environment) {L : Type} (l : L)
    (w : world) (pdf_path : path) (doc : document) :
  fitz_open E w pdf_path = inr doc ->
  (forall w0, tempfile_error E w0 = None) ->
  Forall page_saved (doc_pages doc) ->
  close doc = None ->
  outcome (perform_ocr_on_pdf E pdf_path (l, w))
  = Ret (Some (strip (join newline (ocr_texts (doc_pages doc))))).
Proof.
  intros Hopen Ht Hp Hc.
  destruct (perform_ocr_on_pdf_opened E l w pdf_path doc Hopen)
    as [r0 [out [w' [Run [Out [_ [_ [T [R _]]]]]]]]].
  rewrite Run. unfold outcome. cbn [fst].
  destruct (R Ht Hp) as [pages ->]. destruct (T pages eq_refl) as [-> _].
  subst out. now rewrite Hc.
Qed.

Lemma perform_ocr_on_pdf_text_witness :
  outcome (perform_ocr_on_pdf (opening second_page_unreadable None) 7
             (tt, empty_world))
  = Ret (Some (strip (join newline
                        (ocr_texts (doc_pages second_page_unreadable))))).
Proof.
  apply (perform_ocr_on_pdf_text (opening second_page_unreadable None) tt
           empty_world 7 second_page_unreadable).
  - reflexivity.
  - reflexivity.
  - repeat constructor.
  - reflexivity.
Defined.

(** C5 as stated fails when Tesseract fails on a page between two others:
    the result has one newline between the texts of the first and the third
    page, where an empty text for the second page gives two. *)
Lemma perform_ocr_on_pdf_failed_page_left_out :
  outcome (perform_ocr_on_pdf (opening second_page_unreadable None) 7
             (tt, empty_world))
  = Ret (Some (lit "Invoice" ++ newline :: lit "Acme"))
  /\ strip (join newline (ocr_texts_with_empty (doc_pages second_page_unreadable)))
     = lit "Invoice" ++ newline :: newline :: lit "Acme"
  /\ outcome (perform_ocr_on_pdf (opening second_page_unreadable None) 7
                (tt, empty_world))
     <> Ret (Some (strip (join newline
                            (ocr_texts_with_empty
                               (doc_pages second_page_unreadable))))).
Proof.
  split; [reflexivity|]. split; [reflexivity|]. vm_compute. discriminate.
Qed.

(** ** Events of a statement *)

Section Emits.

Context {L : Type} (P : event -> Prop).

Lemma emits_ret {A} (a : A) : emits P (@ret L A a).
Proof. intros s. exists []. simpl. now rewrite app_nil_r. Qed.

Lemma emits_raise {A} e : emits P (@raise L A e).
Proof. intros s. exists []. simpl. now rewrite app_nil_r. Qed.

Lemma emits_emit e : P e -> emits P (@emit L e).
Proof. intros H s. exists [e]. simpl. auto. Qed.

Lemma emits_print m : P (Printed m) -> emits P (@print L m).
Proof. apply emits_emit. Qed.

Lemma emits_ask {A} (f : world -> exn + A) : emits P (@ask L A f).
Proof.
  intros s. exists []. unfold ask. rewrite app_nil_r.
  destruct (f (snd s)); auto.
Qed.

Lemma emits_attempt f : emits P (@attempt L f).
Proof.
  intros s. exists []. unfold attempt. rewrite app_nil_r.
  destruct (f (snd s)); auto.
Qed.

Lemma emits_get_local : emits P (@get_local L).
Proof. intros s. exists []. simpl. now rewrite app_nil_r. Qed.

Lemma emits_set_local l : emits P (@set_local L l).
Proof. intros s. exists []. simpl. now rewrite app_nil_r. Qed.

Lemma emits_bind {A B} (m : M L A) (k : A -> M L B) :
  emits P m -> (forall a, emits P (k a)) -> emits P (bind m k).
Proof.
  intros Hm Hk s. destruct (Hm s) as [evs1 [T1 F1]]. unfold bind.
  destruct (m s) as [[a|e] s1]; cbn [snd] in T1.
  - destruct (Hk a s1) as [evs2 [T2 F2]]. exists (evs1 ++ evs2).
    rewrite T2, T1, app_assoc. split; auto. now apply Forall_app.
  - exists evs1. auto.
Qed.

Lemma emits_try_except {A} (m : M L A) h :
  emits P m -> (forall e, emits P (h e)) -> emits P (try_except m h).
Proof.
  intros Hm Hh s. destruct (Hm s) as [evs1 [T1 F1]]. unfold try_except.
  destruct (m s) as [[a|e] s1]; cbn [snd] in T1.
  - exists evs1. auto.
  - destruct (Hh e s1) as [evs2 [T2 F2]]. exists (evs1 ++ evs2).
    rewrite T2, T1, app_assoc. split; auto. now apply Forall_app.
Qed.

Lemma emits_try_finally {A} (m : M L A) final :
  emits P m -> emits P final -> emits P (try_finally m final).
Proof.
  intros Hm Hf s. destruct (Hm s) as [evs1 [T1 F1]]. unfold try_finally.
  destruct (m s) as [r s1]; cbn [snd] in T1.
  destruct (Hf s1) as [evs2 [T2 F2]]. exists (evs1 ++ evs2).
  destruct (final s1) as [[u|e] s2]; cbn [snd] in *;
    rewrite T2, T1, app_assoc; split; auto; now apply Forall_app.
Qed.

Lemma emits_for_each {X} (xs : list X) body :
  (forall x, emits P (body x)) -> emits P (@for_each L X xs body).
Proof.
  intros Hb. induction xs as [|x xs IH]; simpl.
  - apply emits_ret.
  - apply emits_bind; auto.
Qed.

Lemma emits_for_fold {X A} (xs : list X) body :
  (forall x acc, emits P (body x acc)) ->
  forall acc : A, emits P (@for_fold L X A xs body acc).
Proof.
  intros Hb. induction xs as [|x xs IH]; intros acc; simpl.
  - apply emits_ret.
  - apply emits_bind; auto.
Qed.

Lemma emits_call {L' A} (init : L') (m : M L' A) :
  emits P m -> emits P (@call L L' A init m).
Proof.
  intros Hm s. destruct (Hm (init, snd s)) as [evs [T F]]. exists evs.
  unfold call. destruct (m (init, snd s)) as [r [l' w']]. auto.
Qed.

Lemma emits_os_path_exists p : emits P (@os_path_exists L p).
Proof. intros s. exists []. simpl. now rewrite app_nil_r. Qed.

Lemma emits_NamedTemporaryFile E :
  (forall p, P (TempFileCreated p)) -> emits P (@NamedTemporaryFile E L).
Proof.
  intros H. unfold NamedTemporaryFile. apply emits_bind.
  - apply emits_attempt.
  - intros _ s. eexists [_]. simpl. split; [reflexivity|]. auto.
Qed.

Lemma emits_os_remove E p :
  (forall q, P (FileRemoved q)) -> emits P (@os_remove E L p).
Proof.
  intros H. unfold os_remove. apply emits_bind.
  - apply emits_os_path_exists.
  - intros ex. destruct ex; simpl.
    + apply emits_bind; [apply emits_attempt|].
      intros _ s. eexists [_]. simpl. split; [reflexivity|]. auto.
    + apply emits_raise.
Qed.

End Emits.

(** One step of a proof that a statement emits events of one kind. *)
Ltac emits_step :=
  match goal with
  | |- emits _ (bind _ _) => apply emits_bind; [|intros ?]
  | |- emits _ (ret _) => apply emits_ret
  | |- emits _ (raise _) => apply emits_raise
  | |- emits _ (print _) => apply emits_print; exact I
  | |- emits _ (emit _) => apply emits_emit; exact I
  | |- emits _ (ask _) => apply emits_ask
  | |- emits _ (attempt _) => apply emits_attempt
  | |- emits _ get_local => apply emits_get_local
  | |- emits _ (set_local _) => apply emits_set_local
  | |- emits _ (try_except _ _) => apply emits_try_except; [|intros ?]
  | |- emits _ (try_finally _ _) => apply emits_try_finally
  | |- emits _ (for_each _ _) => apply emits_for_each; intros ?
  | |- emits _ (for_fold _ _ _) => apply emits_for_fold; intros ? ?
  | |- emits _ (call _ _) => apply emits_call
  | |- emits _ (os_path_exists _) => apply emits_os_path_exists
  | |- emits _ (NamedTemporaryFile _) =>
      apply emits_NamedTemporaryFile; intros ?; exact I
  | |- emits _ (os_remove _ _) => apply emits_os_remove; intros ?; exact I
  | |- emits _ (if ?b then _ else _) => destruct b
  | |- emits _ (match ?x with _ => _ end) => destruct x
  | |- emits _ (let _ := _ in _) => cbv zeta
  end.

(** ** Statements that never raise *)

Section Safe.

Context {L : Type}.

Lemma safe_ret {A} (a : A) : safe (@ret L A a).
Proof. intros s. now exists a, s. Qed.

Lemma safe_emit e : safe (@emit L e).
Proof. intros s. eexists tt, _. reflexivity. Qed.

Lemma safe_print m : safe (@print L m).
Proof. apply safe_emit. Qed.

Lemma safe_get_local : safe (@get_local L).
Proof. intros s. eexists _, _. reflexivity. Qed.

Lemma safe_set_local l : safe (@set_local L l).
Proof. intros s. eexists _, _. reflexivity. Qed.

Lemma safe_os_path_exists p : safe (@os_path_exists L p).
Proof. intros s. eexists _, _. reflexivity. Qed.

Lemma safe_bind {A B} (m : M L A) (k : A -> M L B) :
  safe m -> (forall a, safe (k a)) -> safe (bind m k).
Proof.
  intros Hm Hk s. destruct (Hm s) as [a [s1 R1]]. unfold bind. rewrite R1.
  apply Hk.
Qed.

(** A handler that never raises makes the [try] statement safe, whatever
    the body does. *)
Lemma safe_try_except {A} (m : M L A) h :
  (forall e, safe (h e)) -> safe (try_except m h).
Proof.
  intros Hh s. unfold try_except. destruct (m s) as [[a|e] s1].
  - now exists a, s1.
  - apply Hh.
Qed.

Lemma safe_try_finally {A} (m : M L A) final :
  safe m -> safe final -> safe (try_finally m final).
Proof.
  intros Hm Hf s. destruct (Hm s) as [a [s1 R1]]. unfold try_finally.
  rewrite R1. destruct (Hf s1) as [[] [s2 R2]]. rewrite R2. now exists a, s2.
Qed.

Lemma safe_for_each {X} (xs : list X) body :
  (forall x, safe (body x)) -> safe (@for_each L X xs body).
Proof.
  intros Hb. induction xs as [|x xs IH]; simpl.
  - apply safe_ret.
  - apply safe_bind; auto.
Qed.

End Safe.

(** ** The events of one document *)

Lemma started_app a b : started (a ++ b) = started a ++ started b.
Proof.
  induction a as [|e a IH]; simpl; auto.
  destruct e as [[]| | | | |]; simpl; now rewrite ?IH.
Qed.

Lemma candidates_app a b : candidates (a ++ b) = candidates a ++ candidates b.
Proof.
  induction a as [|e a IH]; simpl; auto.
  destruct e as [[]| | | | |]; simpl; now rewrite ?IH.
Qed.

Lemma renames_app a b : renames (a ++ b) = renames a ++ renames b.
Proof.
  induction a as [|e a IH]; simpl; auto.
  destruct e; simpl; now rewrite ?IH.
Qed.

Lemma silent_events evs :
  Forall silent evs ->
  started evs = [] /\ candidates evs = [] /\ renames evs = [].
Proof.
  induction 1 as [|e evs He _ IH]; simpl; auto.
  destruct e as [[]| | | | |]; simpl in He; try contradiction; exact IH.
Qed.

Section Shaped.

Variable E : environment.
Variable item : drive_file.

Lemma rename_shape_silent evs : Forall silent evs -> rename_shape E item evs.
Proof.
  intros H. destruct (silent_events evs H) as [S [C R]].
  split; auto.
Qed.

Lemma rename_shape_after a b :
  Forall silent a -> rename_shape E item b -> rename_shape E item (a ++ b).
Proof.
  intros H. destruct (silent_events a H) as [S [C R]].
  unfold rename_shape. rewrite started_app, candidates_app, renames_app, S, C, R.
  auto.
Qed.

Lemma rename_shape_before a b :
  rename_shape E item a -> Forall silent b -> rename_shape E item (a ++ b).
Proof.
  intros Ha H. destruct (silent_events b H) as [S [C R]].
  unfold rename_shape. rewrite started_app, candidates_app, renames_app, S, C, R.
  now rewrite !app_nil_r.
Qed.

Context {L : Type}.

Lemma shaped_silent {A} (m : M L A) : emits silent m -> shaped E item m.
Proof.
  intros H s. destruct (H s) as [evs [T F]]. exists evs. split; auto.
  now apply rename_shape_silent.
Qed.

Lemma shaped_bind {A B} (m : M L A) (k : A -> M L B) :
  emits silent m -> (forall a, shaped E item (k a)) -> shaped E item (bind m k).
Proof.
  intros Hm Hk s. destruct (Hm s) as [evs1 [T1 F1]]. unfold bind.
  destruct (m s) as [[a|e] s1]; cbn [snd] in T1.
  - destruct (Hk a s1) as [evs2 [T2 F2]]. exists (evs1 ++ evs2).
    rewrite T2, T1, app_assoc. split; auto. now apply rename_shape_after.
  - exists evs1. split; auto. now apply rename_shape_silent.
Qed.

Lemma shaped_try_except {A} (m : M L A) h :
  shaped E item m -> (forall e, emits silent (h e)) ->
  shaped E item (try_except m h).
Proof.
  intros Hm Hh s. destruct (Hm s) as [evs1 [T1 F1]]. unfold try_except.
  destruct (m s) as [[a|e] s1]; cbn [snd] in T1.
  - exists evs1. auto.
  - destruct (Hh e s1) as [evs2 [T2 F2]]. exists (evs1 ++ evs2).
    rewrite T2, T1, app_assoc. split; auto. now apply rename_shape_before.
Qed.

Lemma shaped_try_finally {A} (m : M L A) final :
  shaped E item m -> emits silent final -> shaped E item (try_finally m final).
Proof.
  intros Hm Hf s. destruct (Hm s) as [evs1 [T1 F1]]. unfold try_finally.
  destruct (m s) as [r s1]; cbn [snd] in T1.
  destruct (Hf s1) as [evs2 [T2 F2]]. exists (evs1 ++ evs2).
  destruct (final s1) as [[u|e] s2]; cbn [snd] in *;
    rewrite T2, T1, app_assoc; split; auto; now apply rename_shape_before.
Qed.

(** Lines 208-221: the candidate is printed, and a rename is requested
    when it differs from the original name. *)
Lemma rename_request_shaped topic new_name_base :
  convert_topic_to_filename (sanitize_filename E) topic = Some new_name_base ->
  let new_name :=
    new_name_of (os_path_module E) new_name_base (item_name item) in
  shaped E item
    (print (L := L) (MsgNewName new_name) ;;
     if str_eqb new_name (item_name item) then ret tt
     else
       print (MsgRenaming (item_name item) new_name) ;;
       try_except
         (emit (Update (item_id item) new_name) ;;
          attempt (fun w => update_error E w (item_id item) new_name) ;;
          print MsgRenameOk)
         (fun e => print (MsgRenameError e))).
Proof.
  intros Hc new_name s.
  unfold bind, print, emit, try_except, attempt, ret. cbn [fst snd].
  destruct (str_eqb new_name (item_name item)) eqn:Eq.
  - exists [Printed (MsgNewName new_name)]. split; [reflexivity|].
    split; [reflexivity|]. right. exists topic, new_name_base.
    fold new_name. rewrite Eq. auto.
  - cbn [fst snd files trace].
    destruct (update_error E _ (item_id item) new_name) as [e|].
    + exists [Printed (MsgNewName new_name);
              Printed (MsgRenaming (item_name item) new_name);
              Update (item_id item) new_name; Printed (MsgRenameError e)].
      cbn [fst snd files trace]. rewrite <- !app_assoc. split; [reflexivity|].
      split; [reflexivity|]. right. exists topic, new_name_base.
      fold new_name. rewrite Eq. auto.
    + exists [Printed (MsgNewName new_name);
              Printed (MsgRenaming (item_name item) new_name);
              Update (item_id item) new_name; Printed MsgRenameOk].
      cbn [fst snd files trace]. rewrite <- !app_assoc. split; [reflexivity|].
      split; [reflexivity|]. right. exists topic, new_name_base.
      fold new_name. rewrite Eq. auto.
Qed.

End Shaped.

Section DocumentFacts.

Variable E : environment.

Lemma perform_ocr_on_pdf_silent {L} pdf_path :
  emits silent (@perform_ocr_on_pdf E L pdf_path).
Proof.
  unfold perform_ocr_on_pdf, remove_image_temp_files, remove_image_temp_file,
    ocr_page.
  repeat emits_step.
Qed.

Lemma get_topic_from_llm_silent {L} text :
  emits silent (@get_topic_from_llm E L text).
Proof.
  unfold get_topic_from_llm. repeat emits_step.
Qed.

(** The body of the [try] statement of one document, with its handler and
    its [finally] block, after the start of the document is printed. *)
Lemma process_item_shaped item :
  exists body,
    process_item E item
    = (print (MsgProcessingFile (item_name item) (item_id item)) ;; body)
    /\ shaped E item body /\ safe body.
Proof.
  eexists. split; [reflexivity|]. split.
  - apply shaped_bind; [repeat emits_step|]. intros _.
    apply shaped_try_finally; [|repeat emits_step].
    apply shaped_try_except; [|intros e; repeat emits_step].
    apply shaped_bind; [repeat emits_step|]. intros _.
    apply shaped_bind; [repeat emits_step|]. intros temp_file.
    apply shaped_bind; [repeat emits_step|]. intros _.
    apply shaped_bind; [repeat emits_step|]. intros _.
    apply shaped_bind; [repeat emits_step|]. intros _.
    apply shaped_bind; [repeat emits_step|]. intros _.
    apply shaped_bind; [repeat emits_step|]. intros _.
    apply shaped_bind; [apply perform_ocr_on_pdf_silent|]. intros ocr_text.
    destruct ocr_text as [[|c ocr_text]|];
      try solve [apply shaped_silent; repeat emits_step].
    apply shaped_bind; [apply get_topic_from_llm_silent|]. intros topic.
    destruct topic as [[|d topic]|];
      try solve [apply shaped_silent; repeat emits_step].
    destruct (convert_topic_to_filename (sanitize_filename E) (d :: topic))
      as [[|b new_name_base]|] eqn:Hc;
      try solve [apply shaped_silent; repeat emits_step].
    now apply (rename_request_shaped E item (d :: topic)).
  - apply safe_bind; [apply safe_set_local|]. intros _.
    apply safe_try_finally.
    + apply safe_try_except. intros e. apply safe_print.
    + apply safe_bind; [apply safe_get_local|]. intros [temp_pdf_path|].
      * apply safe_bind; [apply safe_os_path_exists|]. intros [|].
        -- apply safe_try_except. intros e. apply safe_print.
        -- apply safe_ret.
      * apply safe_ret.
Qed.

Lemma prompts_app a b : prompts (a ++ b) = prompts a ++ prompts b.
Proof.
  induction a as [|e a IH]; simpl; auto.
  destruct e; simpl; now rewrite ?IH.
Qed.

Lemma events_since_same w : events_since w w = [].
Proof. unfold events_since. apply skipn_all. Qed.

Lemma str_eqb_eq a b : str_eqb a b = true <-> a = b.
Proof.
  revert b. induction a as [|x a IH]; intros [|y b]; simpl;
    try (split; congruence).
  unfold char_eqb. rewrite andb_true_iff, IH, N.eqb_eq.
  split; [intros [-> ->]; reflexivity | intros [= -> ->]; auto].
Qed.


Lemma get_topic_from_llm_run {L} (l : L) w text :
  text <> [] ->
  exists out evs,
    get_topic_from_llm E text (l, w)
    = (Ret out, (l, World (files w) (trace w ++ evs)))
    /\ prompts evs
       = [LLM_PROMPT_TEMPLATE_format
            (if MAX_OCR_TEXT_FOR_LLM <? length text
             then prefix MAX_OCR_TEXT_FOR_LLM text else text)].
Proof.
  intros Hne. unfold get_topic_from_llm.
  destruct text as [|c text]; [congruence|]. cbv beta iota delta [falsy].
  set (long := MAX_OCR_TEXT_FOR_LLM <? length (c :: text)).
  set (cut := prefix MAX_OCR_TEXT_FOR_LLM (c :: text)).
  set (full := c :: text) in *.
  assert (Pre : exists pre,
    (if long then print (L := L) (MsgTruncating (length full)) ;; ret cut
     else ret full) (l, w)
    = (Ret (if long then cut else full),
       (l, World (files w) (trace w ++ pre)))
    /\ prompts pre = []).
  { destruct long.
    - exists [Printed (MsgTruncating (length full))]. split; reflexivity.
    - exists []. rewrite app_nil_r. destruct w. split; reflexivity. }
  destruct Pre as [pre [Pre Ppre]].
  rewrite (bind_ret_run _ _ _ _ _ Pre).
  set (prompt := LLM_PROMPT_TEMPLATE_format (if long then cut else full)).
  unfold try_except, bind, print, emit, ask, ret. cbn [fst snd files trace].
  destruct (generate E _ LLM_MODEL_NAME prompt) as [e|[r|]].
  - exists None, (pre ++ [Printed MsgSending; Generate LLM_MODEL_NAME prompt;
                          Printed (MsgLlmError e)]).
    cbn [fst snd files trace]. rewrite <- !app_assoc. split; [reflexivity|].
    rewrite prompts_app, Ppre. reflexivity.
  - exists (Some (strip r)),
      (pre ++ [Printed MsgSending; Generate LLM_MODEL_NAME prompt;
               Printed (MsgLlmResponse (strip r))]).
    cbn [fst snd files trace]. rewrite <- !app_assoc. split; [reflexivity|].
    rewrite prompts_app, Ppre. reflexivity.
  - exists None, (pre ++ [Printed MsgSending; Generate LLM_MODEL_NAME prompt;
                          Printed MsgLlmUnexpected]).
    cbn [fst snd files trace]. rewrite <- !app_assoc. split; [reflexivity|].
    rewrite prompts_app, Ppre. reflexivity.
Qed.

Lemma process_item_run item (l : option path) w :
  exists s' evs,
    process_item E item (l, w) = (Ret tt, s')
    /\ trace (snd s')
       = trace w ++ Printed (MsgProcessingFile (item_name item) (item_id item)) :: evs
    /\ rename_shape E item evs.
Proof.
  destruct (process_item_shaped item) as [body [Eq [Sh Sf]]].
  rewrite Eq. unfold bind at 1. rewrite print_run.
  match goal with |- context [body ?s0] =>
    destruct (Sf s0) as [[] [s' R]]; destruct (Sh s0) as [evs [T Shape]] end.
  rewrite R in *. cbn [snd trace] in T. exists s', evs.
  split; [reflexivity|]. split; [|exact Shape].
  rewrite T, <- app_assoc. reflexivity.
Qed.


Lemma process_items_run : forall items (l : option path) w,
  exists s' evs,
    process_items E items (l, w) = (Ret tt, s')
    /\ trace (snd s') = trace w ++ evs
    /\ started evs = items.
Proof.
  unfold process_items. induction items as [|item items IH]; intros l w.
  - exists (l, w), []. simpl. now rewrite app_nil_r.
  - destruct (process_item_run item l w) as [[l1 w1] [evs1 [R1 [T1 [S1 _]]]]].
    destruct (IH l1 w1) as [s' [evs2 [R2 [T2 S2]]]].
    exists s', (Printed (MsgProcessingFile (item_name item) (item_id item))
                :: evs1 ++ evs2).
    simpl for_each. rewrite (bind_ret_run _ _ _ _ _ R1).
    split; [exact R2|]. split.
    + rewrite T2. cbn [snd] in T1. rewrite T1, <- app_assoc. reflexivity.
    + simpl. rewrite started_app, S1, S2. now destruct item.
Qed.

End DocumentFacts.


(** C8: on the empty text the inferencer returns [None] at once, leaves
    the world as it is and sends no prompt to the model. *)
Theorem get_topic_from_llm_empty (E : environment) {L : Type} (l : L) (w : world) :
  let run := get_topic_from_llm E [] (l, w) in
  outcome run = Ret None
  /\ final_world run = w
  /\ prompts (events_since w (final_world run)) = [].
Proof.
  cbv zeta. unfold get_topic_from_llm, outcome, final_world. simpl.
  now rewrite events_since_same.
Qed.

(** C7: a text of more than 4000 characters goes into the one prompt sent
    to the model as its first 4000 characters, between the two parts of the
    template; a non-empty text of at most 4000 characters goes into it as
    it is. *)
Theorem get_topic_from_llm_prompt (E : environment) {L : Type} (l : L)
    (w : world) (text : str) :
  let run := get_topic_from_llm E text (l, w) in
  let sent := prompts (events_since w (final_world run)) in
  (MAX_OCR_TEXT_FOR_LLM < length text ->
   sent = [LLM_PROMPT_TEMPLATE_before ++ prefix MAX_OCR_TEXT_FOR_LLM text
           ++ LLM_PROMPT_TEMPLATE_after]
   /\ length (prefix MAX_OCR_TEXT_FOR_LLM text) = MAX_OCR_TEXT_FOR_LLM
   /\ exists rest, text = prefix MAX_OCR_TEXT_FOR_LLM text ++ rest)
  /\ (text <> [] -> length text <= MAX_OCR_TEXT_FOR_LLM ->
      sent = [LLM_PROMPT_TEMPLATE_before ++ text ++ LLM_PROMPT_TEMPLATE_after]).
Proof.
  intros run sent. split.
  - intros Hlong.
    assert (Hne : text <> []).
    { intros ->. simpl in Hlong. lia. }
    destruct (get_topic_from_llm_run E l w text Hne) as [out [evs [R P]]].
    subst sent run. rewrite R. unfold final_world. cbn [snd].
    rewrite (events_since_app w (World (files w) (trace w ++ evs)) evs eq_refl), P.
    replace (MAX_OCR_TEXT_FOR_LLM <? length text) with true
      by (symmetry; now apply Nat.ltb_lt).
    split; [reflexivity|]. split.
    + unfold prefix. rewrite length_firstn. lia.
    + exists (skipn MAX_OCR_TEXT_FOR_LLM text). unfold prefix.
      symmetry. apply firstn_skipn.
  - intros Hne Hshort.
    destruct (get_topic_from_llm_run E l w text Hne) as [out [evs [R P]]].
    subst sent run. rewrite R. unfold final_world. cbn [snd].
    rewrite (events_since_app w (World (files w) (trace w ++ evs)) evs eq_refl), P.
    replace (MAX_OCR_TEXT_FOR_LLM <? length text) with false
      by (symmetry; apply Nat.ltb_ge; lia).
    reflexivity.
Qed.

Lemma get_topic_from_llm_prompt_witness :
  let run := get_topic_from_llm (calm (Some acme_reply)) long_text
               (tt, empty_world) in
  let sent := prompts (events_since empty_world (final_world run)) in
  (sent = [LLM_PROMPT_TEMPLATE_before ++ repeat (ch "x") 4000
           ++ LLM_PROMPT_TEMPLATE_after]
   /\ length (prefix MAX_OCR_TEXT_FOR_LLM long_text) = MAX_OCR_TEXT_FOR_LLM
   /\ exists rest, long_text = prefix MAX_OCR_TEXT_FOR_LLM long_text ++ rest)
  /\ prompts (events_since empty_world
                (final_world (get_topic_from_llm (calm (Some acme_reply))
                                (lit "Invoice") (tt, empty_world))))
     = [LLM_PROMPT_TEMPLATE_before ++ lit "Invoice" ++ LLM_PROMPT_TEMPLATE_after].
Proof.
  split.
  - apply (proj1 (get_topic_from_llm_prompt (calm (Some acme_reply)) tt
                    empty_world long_text)).
    vm_compute. lia.
  - apply (proj2 (get_topic_from_llm_prompt (calm (Some acme_reply)) tt
                    empty_world (lit "Invoice"))).
    + discriminate.
    + vm_compute. lia.
Defined.


(** [main] hands a listing that is not empty to the loop: after a
    successful authentication, with a folder of that name and a first
    listing entry whose id is not empty. *)
Lemma main_reaches_loop (E : environment) (l : option path) (w : world)
    (folder : drive_file) (others : list drive_file)
    (item : drive_file) (items : list drive_file) :
  let folder_name := input E w in
  let announced :=
    World (files w)
      ((trace w ++ [Printed (MsgFoundFolder folder_name (item_id folder))])
       ++ [Printed MsgListing]) in
  authenticate_drive E w = inr true ->
  list_files E w
    (lit "name='" ++ folder_name
     ++ lit "' and mimeType='application/vnd.google-apps.folder' and trashed=false")
  = inr (folder :: others) ->
  item_id folder <> [] ->
  list_files E announced
    (dquote :: item_id folder ++ dquote :: lit " in parents and mimeType="
     ++ dquote :: PDF_MIME_TYPE ++ dquote :: lit " and trashed=false")
  = inr (item :: items) ->
  main E (l, w)
  = process_items E (item :: items)
      (l, World (files w)
            (trace announced ++ [Printed (MsgFound (length (item :: items)))])).
Proof.
  intros folder_name announced Hauth Hfolder Hid Hlist.
  subst announced folder_name.
  unfold main, find_folder_id, bind, ask. cbn [fst snd].
  rewrite Hauth. cbn [negb fst snd]. rewrite Hfolder.
  unfold ret. destruct (item_id folder) as [|c id] eqn:Hi; [congruence|].
  unfold print, emit. cbn [fst snd files trace].
  rewrite Hlist. reflexivity.
Qed.

(** Then [main] ends without an exception after the start of every listed
    document. *)
Lemma main_starts_every_document (E : environment) (l : option path)
    (w : world) (folder : drive_file) (others : list drive_file)
    (item : drive_file) (items : list drive_file) :
  let folder_name := input E w in
  let announced :=
    World (files w)
      ((trace w ++ [Printed (MsgFoundFolder folder_name (item_id folder))])
       ++ [Printed MsgListing]) in
  authenticate_drive E w = inr true ->
  list_files E w
    (lit "name='" ++ folder_name
     ++ lit "' and mimeType='application/vnd.google-apps.folder' and trashed=false")
  = inr (folder :: others) ->
  item_id folder <> [] ->
  list_files E announced
    (dquote :: item_id folder ++ dquote :: lit " in parents and mimeType="
     ++ dquote :: PDF_MIME_TYPE ++ dquote :: lit " and trashed=false")
  = inr (item :: items) ->
  outcome (main E (l, w)) = Ret tt
  /\ started (events_since w (final_world (main E (l, w)))) = item :: items.
Proof.
  intros folder_name announced Hauth Hfolder Hid Hlist.
  rewrite (main_reaches_loop E l w folder others item items
             Hauth Hfolder Hid Hlist).
  fold folder_name. fold announced.
  match goal with |- context [process_items E _ (l, ?w3)] =>
    destruct (process_items_run E (item :: items) l w3) as [s' [evs [R [T S]]]]
  end.
  rewrite R. unfold outcome, final_world. cbn [fst snd].
  split; [reflexivity|].
  cbn [trace] in T. unfold announced in T. cbn [trace] in T.
  rewrite <- !app_assoc in T. rewrite (events_since_app w (snd s') _ T).
  rewrite !started_app, S. reflexivity.
Qed.

(** A rename request that Drive refuses for the first document does not
    keep the second one from being processed and renamed. *)
Example refused_rename_does_not_stop_the_run :
  let E := refusing_renames (opening second_page_unreadable (Some acme_reply)) in
  let run := process_items E [freshly_scanned; already_named]
               (None, empty_world) in
  outcome run = Ret tt
  /\ started (events_since empty_world (final_world run))
     = [freshly_scanned; already_named]
  /\ renames (events_since empty_world (final_world run))
     = [(lit "id-2", lit "Acme_Corp_-_Invoice_Payment.pdf")].
Proof. vm_compute. auto. Qed.

(** The events of one document: its start, then the events of
    [rename_shape]. *)
Lemma process_item_events (E : environment) (item : drive_file)
    (l : option path) (w : world) :
  let run := process_item E item (l, w) in
  outcome run = Ret tt
  /\ exists evs,
       events_since w (final_world run)
       = Printed (MsgProcessingFile (item_name item) (item_id item)) :: evs
       /\ rename_shape E item evs.
Proof.
  cbv zeta. destruct (process_item_run E item l w) as [s' [evs [R [T S]]]].
  rewrite R. unfold outcome, final_world. cbn [fst snd].
  split; [reflexivity|]. exists evs. split; [|exact S].
  now apply events_since_app.
Qed.

(** C9: when the candidate name of a document is its original name, no
    rename request is sent for it, its processing ends without an
    exception, and the loop goes on with the documents that follow. *)
Theorem process_item_same_name (E : environment) (item : drive_file)
    (rest : list drive_file) (l : option path) (w : world) :
  let run := process_item E item (l, w) in
  let evs := events_since w (final_world run) in
  In (item_name item) (candidates evs) ->
  renames evs = []
  /\ outcome run = Ret tt
  /\ process_items E (item :: rest) (l, w) = process_items E rest (snd run).
Proof.
  intros run evs Hin.
  destruct (process_item_events E item l w) as [Hret [evs' [Hev Shape]]].
  fold run in Hret, Hev. fold evs in Hev.
  split; [|split].
  - rewrite Hev in *. simpl in Hin |- *.
    destruct Shape as [_ [[Hc _]|[topic [base [_ [Hc Hr]]]]]].
    + rewrite Hc in Hin. contradiction.
    + rewrite Hc in Hin. destruct Hin as [Hin|[]].
      rewrite Hr. apply str_eqb_eq in Hin. now rewrite Hin.
  - exact Hret.
  - unfold process_items. simpl for_each. unfold bind.
    unfold outcome in Hret. fold run. destruct run as [r s']. cbn [fst] in Hret.
    now rewrite Hret.
Qed.

Lemma process_item_same_name_witness :
  let E := opening second_page_unreadable (Some acme_reply) in
  let run := process_item E already_named (None, empty_world) in
  renames (events_since empty_world (final_world run)) = []
  /\ outcome run = Ret tt
  /\ process_items E [already_named; freshly_scanned] (None, empty_world)
     = process_items E [freshly_scanned] (snd run).
Proof.
  apply (process_item_same_name
           (opening second_page_unreadable (Some acme_reply)) already_named
           [freshly_scanned] None empty_world).
  vm_compute. left. reflexivity.
Defined.

(** * Further properties *)

(** ** Filename sanitizer *)

Lemma In_prefix n (s : str) c : In c (prefix n s) -> In c s.
Proof.
  unfold prefix. intros I. rewrite <- (firstn_skipn n s).
  apply in_or_app. now left.
Qed.

Lemma lstrip_first drop s c :
  first_char (lstrip drop s) = Some c -> drop c = false.
Proof.
  induction s as [|x s IH]; simpl; [discriminate|].
  destruct (drop x) eqn:D; auto. simpl. intros [= <-]. exact D.
Qed.

Lemma first_char_app s t c :
  first_char s = Some c -> first_char (s ++ t) = Some c.
Proof. destruct s; simpl; [discriminate|auto]. Qed.

Lemma strip_with_first drop s c :
  first_char (strip_with drop s) = Some c -> drop c = false.
Proof.
  unfold strip_with. intros H.
  destruct (rstrip_prefix drop (lstrip drop s)) as [post P].
  apply (lstrip_first drop s c). rewrite P. now apply first_char_app.
Qed.

Lemma strip_with_last drop s c :
  last_char (strip_with drop s) = Some c -> drop c = false.
Proof.
  unfold strip_with, rstrip, last_char. rewrite rev_involutive.
  apply lstrip_first.
Qed.

Lemma first_char_prefix n s c :
  first_char (prefix n s) = Some c -> first_char s = Some c.
Proof. destruct n, s; simpl; auto; discriminate. Qed.

(** X1: whatever the library function returns, the name of the sanitizer
    holds no space. *)
Theorem convert_topic_to_filename_no_space (sf : str -> str) (topic name : str) :
  convert_topic_to_filename sf topic = Some name -> ~ In space name.
Proof.
  intros H. destruct topic as [|c topic]; [discriminate H|].
  rewrite convert_topic_to_filename_eq in H by discriminate.
  destruct (prefix MAX_FILENAME_LENGTH (trimmed_name sf (c :: topic)))
    as [|d r] eqn:P; injection H as <-.
  - intros I. in_literal I.
  - rewrite <- P. intros I. apply In_prefix in I.
    now apply (trimmed_name_no_space sf (c :: topic)).
Qed.

Lemma convert_topic_to_filename_no_space_witness :
  ~ In space (lit "Acme_Corp_-_Invoice").
Proof.
  apply (convert_topic_to_filename_no_space remove_unsafe_chars
           (lit " Acme Corp: - Invoice? ")).
  reflexivity.
Defined.

(** X2: the name of the sanitizer never starts with a space, an underscore
    or a hyphen, and it does not end with one when the length cap cuts
    nothing off the trimmed name. *)
Theorem convert_topic_to_filename_edges (sf : str -> str) (topic name : str) :
  convert_topic_to_filename sf topic = Some name ->
  (forall c, first_char name = Some c -> mem_chars (lit " _-") c = false)
  /\ (length (trimmed_name sf topic) <= MAX_FILENAME_LENGTH ->
      forall c, last_char name = Some c -> mem_chars (lit " _-") c = false).
Proof.
  intros H. destruct topic as [|x topic]; [discriminate H|].
  rewrite convert_topic_to_filename_eq in H by discriminate.
  destruct (prefix MAX_FILENAME_LENGTH (trimmed_name sf (x :: topic)))
    as [|d r] eqn:P; injection H as <-.
  - split; [intros c [= <-]; reflexivity|]. intros _ c [= <-]. reflexivity.
  - rewrite <- P. split.
    + intros c Hc. apply first_char_prefix in Hc.
      now apply (strip_with_first _ _ c Hc).
    + intros Len c Hc. rewrite prefix_all in Hc by assumption.
      now apply (strip_with_last _ _ c Hc).
Qed.

Lemma convert_topic_to_filename_edges_witness :
  (forall c, first_char (lit "Acme_Corp_-_Invoice") = Some c ->
             mem_chars (lit " _-") c = false)
  /\ forall c, last_char (lit "Acme_Corp_-_Invoice") = Some c ->
               mem_chars (lit " _-") c = false.
Proof.
  destruct (convert_topic_to_filename_edges remove_unsafe_chars
              (lit "- Acme Corp: - Invoice? _") (lit "Acme_Corp_-_Invoice")
              eq_refl) as [A B].
  split; [exact A|]. apply B. vm_compute. lia.
Defined.

(** X3: the sanitizer adds no character of its own: its name is the
    placeholder, or each of its characters is an underscore or a character
    of what the library function returned for the topic. *)
Theorem convert_topic_to_filename_characters (sf : str -> str)
    (topic name : str) :
  convert_topic_to_filename sf topic = Some name ->
  name = Untitled
  \/ forall c, In c name -> c = underscore \/ In c (sf topic).
Proof.
  intros H. destruct topic as [|x topic]; [discriminate H|].
  rewrite convert_topic_to_filename_eq in H by discriminate.
  destruct (prefix MAX_FILENAME_LENGTH (trimmed_name sf (x :: topic)))
    as [|d r] eqn:P; injection H as <-; [now left|right].
  rewrite <- P. intros c I. apply In_prefix in I.
  unfold trimmed_name in I. apply strip_with_incl in I.
  unfold replace in I. apply in_map_iff in I. destruct I as [y [Hy Iy]].
  destruct (char_eqb y space); [now left|right]. now subst.
Qed.

Lemma convert_topic_to_filename_characters_witness :
  lit "Acme_Corp" = Untitled
  \/ forall c, In c (lit "Acme_Corp") ->
       c = underscore \/ In c (remove_unsafe_chars (lit "Acme: Corp")).
Proof.
  apply (convert_topic_to_filename_characters remove_unsafe_chars
           (lit "Acme: Corp")).
  reflexivity.
Defined.

(** ** Topic inferencer *)

Lemma strip_idem s : strip (strip s) = strip s.
Proof. apply strip_with_idem. Qed.

(** The run of the inferencer on a text that is not empty: the events
    [pre] before the call, the world [w1] that the model sees, and the
    result, which is the stripped reply or [None]. *)
Lemma get_topic_from_llm_reply (E : environment) {L} (l : L) w text :
  text <> [] ->
  exists pre (post : message),
    let prompt := LLM_PROMPT_TEMPLATE_format (text_for_llm text) in
    let w1 :=
      World (files w)
        (((trace w ++ pre) ++ [Printed MsgSending])
         ++ [Generate LLM_MODEL_NAME prompt]) in
    get_topic_from_llm E text (l, w)
    = (Ret (match generate E w1 LLM_MODEL_NAME prompt with
            | inr (Some r) => Some (strip r)
            | _ => None
            end),
       (l, World (files w) (trace w1 ++ [Printed post])))
    /\ Forall inferencer_event (pre ++ [Printed post])
    /\ prompts pre = [].
Proof.
  intros Hne. unfold get_topic_from_llm, text_for_llm.
  destruct text as [|c text]; [congruence|]. cbv beta iota delta [falsy].
  set (long := MAX_OCR_TEXT_FOR_LLM <? length (c :: text)).
  set (cut := prefix MAX_OCR_TEXT_FOR_LLM (c :: text)).
  set (full := c :: text) in *.
  assert (Pre : exists pre,
    (if long then print (L := L) (MsgTruncating (length full)) ;; ret cut
     else ret full) (l, w)
    = (Ret (if long then cut else full),
       (l, World (files w) (trace w ++ pre)))
    /\ Forall inferencer_event pre /\ prompts pre = []).
  { destruct long.
    - exists [Printed (MsgTruncating (length full))].
      split; [reflexivity|]. split; [repeat constructor|reflexivity].
    - exists []. rewrite app_nil_r. destruct w.
      split; [reflexivity|]. split; [constructor|reflexivity]. }
  destruct Pre as [pre [Pre [Fpre Ppre]]].
  rewrite (bind_ret_run _ _ _ _ _ Pre).
  set (prompt := LLM_PROMPT_TEMPLATE_format (if long then cut else full)).
  unfold try_except, bind, print, emit, ask, ret. cbn [fst snd files trace].
  exists pre. cbv zeta. fold prompt.
  destruct (generate E _ LLM_MODEL_NAME prompt) as [e|[r|]].
  - exists (MsgLlmError e).
    split; [reflexivity|]. split; [|exact Ppre].
    apply Forall_app. split; [exact Fpre|repeat constructor].
  - exists (MsgLlmResponse (strip r)).
    split; [reflexivity|]. split; [|exact Ppre].
    apply Forall_app. split; [exact Fpre|repeat constructor].
  - exists MsgLlmUnexpected.
    split; [reflexivity|]. split; [|exact Ppre].
    apply Forall_app. split; [exact Fpre|repeat constructor].
Qed.

(** The events of a run of the inferencer on a text that is not empty. *)
Lemma get_topic_from_llm_events (E : environment) {L} (l : L) w text :
  text <> [] ->
  let run := get_topic_from_llm E text (l, w) in
  let evs := events_since w (final_world run) in
  files (final_world run) = files w
  /\ Forall inferencer_event evs
  /\ prompts evs = [LLM_PROMPT_TEMPLATE_format (text_for_llm text)].
Proof.
  intros Hne.
  destruct (get_topic_from_llm_reply E l w text Hne) as [pre [post [R [F P]]]].
  cbv zeta in *. rewrite R. unfold final_world. cbn [snd files trace].
  split; [reflexivity|].
  rewrite (events_since_app w
             (World (files w)
                ((((trace w ++ pre) ++ [Printed MsgSending])
                  ++ [Generate LLM_MODEL_NAME
                        (LLM_PROMPT_TEMPLATE_format (text_for_llm text))])
                 ++ [Printed post]))
             (pre ++ [Printed MsgSending;
                      Generate LLM_MODEL_NAME
                        (LLM_PROMPT_TEMPLATE_format (text_for_llm text));
                      Printed post]))
    by (cbn [trace]; rewrite <- !app_assoc; reflexivity).
  apply Forall_app in F. destruct F as [Fpre Fpost].
  split.
  - apply Forall_app. split; [exact Fpre|].
    inversion Fpost; subst. repeat constructor. assumption.
  - rewrite prompts_app, P. reflexivity.
Qed.


(** X5: a topic that the inferencer returns is the stripped reply of the
    model to the prompt made of the text, cut to 4000 characters when it is
    longer, and stripping it again changes nothing. *)
Theorem get_topic_from_llm_topic (E : environment) {L : Type} (l : L)
    (w : world) (text topic : str) :
  outcome (get_topic_from_llm E text (l, w)) = Ret (Some topic) ->
  strip topic = topic
  /\ exists w1 r,
       generate E w1 LLM_MODEL_NAME (LLM_PROMPT_TEMPLATE_format (text_for_llm text))
       = inr (Some r)
       /\ topic = strip r
       /\ files w1 = files w.
Proof.
  intros H. destruct text as [|c text]; [discriminate H|].
  destruct (get_topic_from_llm_reply E l w (c :: text)) as [pre [post [R _]]];
    [discriminate|].
  cbv zeta in R. rewrite R in H. unfold outcome in H. cbn [fst] in H.
  match type of H with context [generate E ?w1 _ _] =>
    destruct (generate E w1 LLM_MODEL_NAME
                (LLM_PROMPT_TEMPLATE_format (text_for_llm (c :: text))))
      as [e|[r|]] eqn:G; try discriminate H;
    injection H as <-; split; [apply strip_idem|];
    exists w1, r; auto
  end.
Qed.

Lemma get_topic_from_llm_topic_witness :
  strip (lit "Acme Corp - Invoice Payment") = lit "Acme Corp - Invoice Payment"
  /\ exists w1 r,
       generate (calm (Some acme_reply)) w1 LLM_MODEL_NAME
         (LLM_PROMPT_TEMPLATE_format (text_for_llm (lit "Invoice")))
       = inr (Some r)
       /\ lit "Acme Corp - Invoice Payment" = strip r
       /\ files w1 = files empty_world.
Proof.
  apply (get_topic_from_llm_topic (calm (Some acme_reply)) tt empty_world
           (lit "Invoice")).
  reflexivity.
Defined.

(** X6: when the model raises, or replies without the field [response],
    whenever it is called, the inferencer returns [None] on every text. *)
Theorem get_topic_from_llm_no_reply (E : environment) {L : Type} (l : L)
    (w : world) (text : str) :
  (forall w1 prompt r, generate E w1 LLM_MODEL_NAME prompt <> inr (Some r)) ->
  outcome (get_topic_from_llm E text (l, w)) = Ret None.
Proof.
  intros H. destruct text as [|c text]; [reflexivity|].
  destruct (get_topic_from_llm_reply E l w (c :: text)) as [pre [post [R _]]];
    [discriminate|].
  cbv zeta in R. rewrite R. unfold outcome. cbn [fst].
  match goal with |- context [generate E ?w1 _ ?p] =>
    destruct (generate E w1 LLM_MODEL_NAME p) as [e|[r|]] eqn:G; auto;
    now destruct (H _ _ _ G)
  end.
Qed.

Lemma get_topic_from_llm_no_reply_witness :
  outcome (get_topic_from_llm (failing_model (calm None)) (lit "Invoice")
             (tt, empty_world))
  = Ret None.
Proof.
  apply (get_topic_from_llm_no_reply (failing_model (calm None)) tt
           empty_world (lit "Invoice")).
  intros w1 prompt r. discriminate.
Defined.

(** X7: a prompt sent to the model is never longer than the template
    around 4000 characters of text. *)
Theorem get_topic_from_llm_prompt_bounded (E : environment) {L : Type} (l : L)
    (w : world) (text : str) :
  let run := get_topic_from_llm E text (l, w) in
  Forall (fun prompt =>
            length prompt
            <= length LLM_PROMPT_TEMPLATE_before + MAX_OCR_TEXT_FOR_LLM
               + length LLM_PROMPT_TEMPLATE_after)
         (prompts (events_since w (final_world run))).
Proof.
  destruct text as [|c text].
  - cbv zeta. unfold get_topic_from_llm, final_world. simpl.
    rewrite events_since_same. constructor.
  - destruct (get_topic_from_llm_events E l w (c :: text)) as [_ [_ Hp]];
      [discriminate|].
    cbv zeta in *. rewrite Hp. constructor; [|constructor].
    unfold LLM_PROMPT_TEMPLATE_format. rewrite !length_app.
    assert (B : length (text_for_llm (c :: text)) <= MAX_OCR_TEXT_FOR_LLM).
    { unfold text_for_llm.
      destruct (MAX_OCR_TEXT_FOR_LLM <? length (c :: text)) eqn:Lt.
      - apply prefix_length.
      - now apply Nat.ltb_ge in Lt. }
    lia.
Qed.

(** ** Text extractor *)

Lemma perform_ocr_on_pdf_unopened (E : environment) {L} (l : L) w pdf_path e :
  fitz_open E w pdf_path = inl e ->
  perform_ocr_on_pdf E pdf_path (l, w)
  = (Ret None, (l, World (files w) (trace w ++ [Printed (MsgPdfError e)]))).
Proof.
  intros H. unfold perform_ocr_on_pdf. apply call_run with (l' := []).
  rewrite (bind_ret_run _ _ _ None
             ([], World (files w) (trace w ++ [Printed (MsgPdfError e)])));
    [reflexivity|].
  eapply try_finally_run;
    [unfold try_except, bind at 1, ask; cbn [snd]; rewrite H; reflexivity
    |reflexivity].
Qed.

(** The three stages of the extractor on a PDF that opens: the page loop,
    the end of the [try] statement with the events [mid], and the removal
    of the recorded files. *)
Lemma perform_ocr_on_pdf_stages (E : environment) {L} (l : L) w pdf_path doc :
  fitz_open E w pdf_path = inr doc ->
  exists r0 tmp' w2 mid w',
    for_fold (seq 0 (page_count doc)) (ocr_page E doc) []
      ([], World (files w)
             (trace w ++ [Printed (MsgProcessingPages (page_count doc))]))
    = (r0, (tmp', w2))
    /\ Forall extractor_event mid
    /\ for_each tmp' (remove_image_temp_file E)
         (tmp', World (files w2) (trace w2 ++ mid))
       = (Ret tt, (tmp', w'))
    /\ perform_ocr_on_pdf E pdf_path (l, w)
       = (Ret (match r0 with
               | Ret pages =>
                   match close doc with
                   | None => Some (strip (join newline pages))
                   | Some _ => None
                   end
               | Raise _ => None
               end), (l, w')).
Proof.
  intros Hopen.
  destruct (for_fold (seq 0 (page_count doc)) (ocr_page E doc) []
              ([], World (files w)
                     (trace w ++ [Printed (MsgProcessingPages (page_count doc))])))
    as [r0 [tmp' w2]] eqn:Loop.
  exists r0, tmp', w2.
  assert (Try : exists out mid,
    try_except
      (doc <- ask (fun w => fitz_open E w pdf_path) ;;
       print (MsgProcessingPages (page_count doc)) ;;
       pages <- for_fold (seq 0 (page_count doc)) (ocr_page E doc) [] ;;
       let text := join newline pages in
       print MsgOcrComplete ;;
       attempt (fun _ => close doc) ;;
       ret (Some text))
      (fun e => print (MsgPdfError e) ;; ret None) ([], w)
    = (Ret out, (tmp', World (files w2) (trace w2 ++ mid)))
    /\ Forall extractor_event mid
    /\ option_map strip out
       = match r0 with
         | Ret pages =>
             match close doc with
             | None => Some (strip (join newline pages))
             | Some _ => None
             end
         | Raise _ => None
         end).
  { unfold try_except, bind at 1, ask. cbn [snd]. rewrite Hopen.
    unfold bind at 1. rewrite print_run. unfold bind at 1. rewrite Loop.
    destruct r0 as [pages|e].
    - cbv zeta. unfold bind at 1. rewrite print_run.
      unfold bind, attempt, ret. cbn [snd].
      destruct (close doc) as [e|].
      + exists None, [Printed MsgOcrComplete; Printed (MsgPdfError e)].
        rewrite print_run. cbn. rewrite <- app_assoc.
        split; [reflexivity|]. split; [repeat constructor|reflexivity].
      + exists (Some (join newline pages)), [Printed MsgOcrComplete].
        split; [reflexivity|]. split; [repeat constructor|reflexivity].
    - exists None, [Printed (MsgPdfError e)].
      unfold bind. rewrite print_run.
      split; [reflexivity|]. split; [repeat constructor|reflexivity]. }
  destruct Try as [out [mid [Try [Fmid Out]]]].
  destruct (remove_listed_files E tmp' tmp' (World (files w2) (trace w2 ++ mid)))
    as [w' [evs_clean [Clean _]]].
  exists mid, w'. split; [reflexivity|]. split; [exact Fmid|].
  split; [exact Clean|].
  unfold perform_ocr_on_pdf. apply call_run with (l' := tmp').
  rewrite <- Out.
  rewrite (bind_ret_run _ _ _ out (tmp', w')); [reflexivity|].
  eapply try_finally_run; [exact Try|].
  unfold remove_image_temp_files, bind, get_local. cbn [fst]. exact Clean.
Qed.




(** X8: a PDF that cannot be opened gives [None]; the extractor prints the
    error and does nothing else: no temporary file is created and the disk
    is as before. *)
Theorem perform_ocr_on_pdf_cannot_open (E : environment) {L : Type} (l : L)
    (w : world) (pdf_path : path) (e : exn) :
  fitz_open E w pdf_path = inl e ->
  let run := perform_ocr_on_pdf E pdf_path (l, w) in
  outcome run = Ret None
  /\ events_since w (final_world run) = [Printed (MsgPdfError e)]
  /\ files (final_world run) = files w.
Proof.
  intros H. cbv zeta. rewrite (perform_ocr_on_pdf_unopened E l w pdf_path e H).
  unfold outcome, final_world. cbn [fst snd files].
  split; [reflexivity|]. split; [|reflexivity].
  now apply events_since_app.
Qed.

Lemma perform_ocr_on_pdf_cannot_open_witness :
  let run := perform_ocr_on_pdf (calm None) 7 (tt, empty_world) in
  outcome run = Ret None
  /\ events_since empty_world (final_world run)
     = [Printed (MsgPdfError (Exception "cannot open"))]
  /\ files (final_world run) = files empty_world.
Proof.
  apply (perform_ocr_on_pdf_cannot_open (calm None) tt empty_world 7
           (Exception "cannot open")).
  reflexivity.
Defined.


(** X10: on a PDF that opens, a text that the extractor returns is the
    texts of the pages that Tesseract read, joined by newlines and
    stripped; then [close] did not fail and every page has had its
    temporary file. *)
Theorem perform_ocr_on_pdf_returned_text (E : environment) {L : Type} (l : L)
    (w : world) (pdf_path : path) (doc : document) (text : str) :
  fitz_open E w pdf_path = inr doc ->
  let run := perform_ocr_on_pdf E pdf_path (l, w) in
  outcome run = Ret (Some text) ->
  text = strip (join newline (ocr_texts (doc_pages doc)))
  /\ strip text = text
  /\ close doc = None
  /\ length (created (events_since w (final_world run))) = page_count doc.
Proof.
  intros Hopen run H.
  destruct (perform_ocr_on_pdf_opened E l w pdf_path doc Hopen)
    as [r0 [out [w' [Run [Out [_ [_ [T _]]]]]]]].
  subst run. rewrite Run in *. unfold outcome, final_world in *.
  cbn [fst snd] in *. injection H as H. subst out.
  destruct r0 as [pages|e']; [|discriminate Out].
  destruct (close doc); [discriminate Out|]. injection Out as ->.
  destruct (T pages eq_refl) as [-> Len].
  split; [reflexivity|]. split; [apply strip_idem|]. split; [reflexivity|].
  exact Len.
Qed.

Lemma perform_ocr_on_pdf_returned_text_witness :
  let run := perform_ocr_on_pdf (opening second_page_unreadable None) 7
               (tt, empty_world) in
  lit "Invoice" ++ newline :: lit "Acme"
  = strip (join newline (ocr_texts (doc_pages second_page_unreadable)))
  /\ strip (lit "Invoice" ++ newline :: lit "Acme")
     = lit "Invoice" ++ newline :: lit "Acme"
  /\ close second_page_unreadable = None
  /\ length (created (events_since empty_world (final_world run)))
     = page_count second_page_unreadable.
Proof.
  apply (perform_ocr_on_pdf_returned_text
           (opening second_page_unreadable None) tt empty_world 7
           second_page_unreadable).
  - reflexivity.
  - reflexivity.
Defined.

Lemma lstrip_all drop s : (forall c, In c s -> drop c = true) -> lstrip drop s = [].
Proof.
  induction s as [|c s IH]; simpl; auto. intros H.
  rewrite (H c) by now left. apply IH. intros d I. apply H. now right.
Qed.

Lemma strip_blank s : blank s -> strip s = [].
Proof.
  unfold blank, strip, strip_with. rewrite Forall_forall. intros H.
  now rewrite lstrip_all.
Qed.




(** The page loop up to a page whose image cannot be saved: the pages
    before it are recorded in [cr], the file [p] of that page is on disk
    and is not recorded. *)
Lemma page_loop_unsaved (E : environment) doc :
  (forall w0, tempfile_error E w0 = None) ->
  forall good pre rest pg e acc tmp w,
    doc_pages doc = pre ++ good ++ pg :: rest ->
    Forall page_saved good ->
    rasterize pg = None -> save pg = Some e ->
    exists cr p tr,
      for_fold (seq (length pre) (length (good ++ pg :: rest)))
        (ocr_page E doc) acc (tmp, w)
      = (Raise e, (tmp ++ cr, World (p :: rev cr ++ files w) tr))
      /\ ~ In p cr /\ ~ In p (files w)
      /\ forall q, In q cr -> ~ In q (files w).
Proof.
  intros Ht. induction good as [|g good IH];
    intros pre rest pg e acc tmp w Hdoc Hgood Hr Hs.
  - simpl app in *.
    assert (Hn : nth_error (doc_pages doc) (length pre) = Some pg).
    { rewrite Hdoc, nth_error_app2, Nat.sub_diag by lia. reflexivity. }
    simpl. unfold bind.
    destruct (ocr_page_cases E doc (length pre) pg acc tmp w Hn)
      as [[e0 [Q [C|[_ C]]]]|[[e0 [Q [_ Cs]]]|[m [Q [_ Cs]]]]].
    + congruence.
    + rewrite Ht in C. discriminate.
    + rewrite Q. exists [], (fresh_path (files w)). eexists.
      rewrite app_nil_r. simpl.
      replace e0 with e by congruence.
      split; [reflexivity|]. split; [intros []|]. split.
      * apply fresh_path_not_on_disk.
      * intros q [].
    + congruence.
  - inversion Hgood as [|? ? [Gr Gs] Hgood']; subst.
    assert (Hn : nth_error (doc_pages doc) (length pre) = Some g).
    { rewrite Hdoc, nth_error_app2, Nat.sub_diag by lia. reflexivity. }
    simpl. unfold bind.
    destruct (ocr_page_cases E doc (length pre) g acc tmp w Hn)
      as [[e0 [Q [C|[_ C]]]]|[[e0 [Q [_ Cs]]]|[m [Q _]]]].
    + congruence.
    + rewrite Ht in C. discriminate.
    + congruence.
    + rewrite Q.
      destruct (IH (pre ++ [g]) rest pg e (acc ++ ocr_texts [g])
                  (tmp ++ [fresh_path (files w)])
                  (World (fresh_path (files w) :: files w)
                     (trace w ++ [TempFileCreated (fresh_path (files w));
                                  Printed m])))
        as [cr [p [tr [R [Np [Nf Nc]]]]]]; auto.
      { rewrite Hdoc, <- app_assoc. reflexivity. }
      rewrite length_app in R. simpl length in R.
      replace (length pre + 1) with (S (length pre)) in R by lia.
      rewrite R. cbn [files] in *.
      exists (fresh_path (files w) :: cr), p, tr.
      split; [|split; [|split]].
      * rewrite <- app_assoc. simpl. rewrite <- app_assoc. reflexivity.
      * intros [J|J]; [|now apply Np]. apply Nf. now left.
      * intros J. apply Nf. now right.
      * intros q [<-|J]; [apply fresh_path_not_on_disk|].
        intros K. apply (Nc q J). now right.
Qed.

(** X12: when the image of a page cannot be saved, the pages before it
    being rasterized and saved and no file creation or removal failing,
    the extractor returns [None] and leaves one file on disk that was not
    there before: the file of that page is created before the save and is
    not yet in the list of the files to remove. *)
Theorem perform_ocr_on_pdf_unsaved_image (E : environment) {L : Type} (l : L)
    (w : world) (pdf_path : path) (doc : document)
    (good rest : list page) (pg : page) (e : exn) :
  fitz_open E w pdf_path = inr doc ->
  doc_pages doc = good ++ pg :: rest ->
  Forall page_saved good ->
  rasterize pg = None -> save pg = Some e ->
  (forall w0, tempfile_error E w0 = None) ->
  (forall w0 p, remove_error E w0 p = None) ->
  let run := perform_ocr_on_pdf E pdf_path (l, w) in
  outcome run = Ret None
  /\ exists p, ~ In p (files w) /\ files (final_world run) = p :: files w.
Proof.
  intros Hopen Hdoc Hgood Hr Hs Ht Hrm. cbv zeta.
  destruct (perform_ocr_on_pdf_stages E l w pdf_path doc Hopen)
    as [r0 [tmp' [w2 [mid [w' [Loop [_ [Clean Run]]]]]]]].
  destruct (page_loop_unsaved E doc Ht good [] rest pg e []
              [] (World (files w)
                    (trace w ++ [Printed (MsgProcessingPages (page_count doc))]))
              Hdoc Hgood Hr Hs)
    as [cr [p [tr [R [Np [Nf Nc]]]]]].
  change (length (@nil page)) with 0 in R. rewrite <- Hdoc in R.
  fold (page_count doc) in R. cbn [app] in R.
  rewrite R in Loop. injection Loop as <- <- <-.
  rewrite Run. unfold outcome, final_world. cbn [fst snd files] in *.
  split; [reflexivity|]. exists p. split; [exact Nf|].
  destruct (remove_listed_files E cr cr
              (World (p :: rev cr ++ files w) (tr ++ mid)))
    as [w'0 [evs [Q [_ [_ F]]]]].
  cbn [files trace] in Clean. rewrite Clean in Q. injection Q as <-.
  rewrite (F Hrm). cbn [files]. simpl filter.
  replace (on_disk p cr) with false
    by (symmetry; now apply on_disk_not_In).
  simpl. f_equal. now apply filter_created_files.
Qed.

Lemma perform_ocr_on_pdf_unsaved_image_witness :
  let run := perform_ocr_on_pdf (opening second_page_unsaved None) 7
               (tt, empty_world) in
  outcome run = Ret None
  /\ exists p, ~ In p (files empty_world)
               /\ files (final_world run) = p :: files empty_world.
Proof.
  apply (perform_ocr_on_pdf_unsaved_image (opening second_page_unsaved None)
           tt empty_world 7 second_page_unsaved [good_page "one"]
           [good_page "three"] (save_failing_page "two")
           (Exception "cannot save")).
  - reflexivity.
  - reflexivity.
  - repeat constructor.
  - reflexivity.
  - reflexivity.
  - reflexivity.
  - reflexivity.
Defined.

(** ** Document processor *)

Lemma convert_topic_to_filename_some (sf : str -> str) topic name :
  convert_topic_to_filename sf topic = Some name -> topic <> [] /\ name <> [].
Proof.
  intros H. destruct topic as [|c topic]; [discriminate H|].
  split; [discriminate|].
  rewrite convert_topic_to_filename_eq in H by discriminate.
  destruct (prefix MAX_FILENAME_LENGTH (trimmed_name sf (c :: topic)));
    injection H as <-; discriminate.
Qed.

Lemma str_eqb_neq a b : str_eqb a b = false -> a <> b.
Proof.
  intros H Heq. apply str_eqb_eq in Heq. congruence.
Qed.

(** The rename requests of one document, read off [rename_shape]. *)
Lemma rename_shape_requests (E : environment) item evs :
  rename_shape E item evs ->
  renames evs = []
  \/ exists topic new_name_base new_name,
       renames evs = [(item_id item, new_name)]
       /\ candidates evs = [new_name]
       /\ new_name <> item_name item
       /\ topic <> [] /\ new_name_base <> []
       /\ convert_topic_to_filename (sanitize_filename E) topic
          = Some new_name_base
       /\ new_name
          = new_name_base ++ snd (splitext (os_path_module E) (item_name item)).
Proof.
  intros [_ [[_ R]|[topic [base [Hc [C R]]]]]]; [now left|].
  destruct (str_eqb (new_name_of (os_path_module E) base (item_name item))
              (item_name item)) eqn:Eq; [now left|right].
  destruct (convert_topic_to_filename_some _ _ _ Hc) as [Ht Hb].
  exists topic, base, (new_name_of (os_path_module E) base (item_name item)).
  repeat split; auto. now apply str_eqb_neq.
Qed.

(** X13: for one document at most one rename is requested; it is addressed
    to the document, its new name is the candidate printed before, differs
    from the name that the document has, and is a name that the sanitizer
    returned, which is not empty, followed by the extension of the original
    name. *)
Theorem process_item_rename_request (E : environment) (item : drive_file)
    (l : option path) (w : world) (id : file_id) (new_name : str) :
  let run := process_item E item (l, w) in
  let evs := events_since w (final_world run) in
  In (id, new_name) (renames evs) ->
  renames evs = [(item_id item, new_name)]
  /\ id = item_id item
  /\ candidates evs = [new_name]
  /\ new_name <> item_name item
  /\ exists topic new_name_base,
       topic <> [] /\ new_name_base <> []
       /\ convert_topic_to_filename (sanitize_filename E) topic
          = Some new_name_base
       /\ new_name
          = new_name_base ++ snd (splitext (os_path_module E) (item_name item)).
Proof.
  intros run evs Hin.
  destruct (process_item_events E item l w) as [_ [evs' [Hev Shape]]].
  fold run in Hev. fold evs in Hev. rewrite Hev in *. simpl in Hin |- *.
  destruct (rename_shape_requests E item evs' Shape)
    as [R|[topic [base [n [R [C [Hn [Ht [Hb [Hc Hnew]]]]]]]]]];
    rewrite R in Hin; [contradiction|].
  destruct Hin as [[= <- <-]|[]].
  rewrite R, C. repeat split; auto. exists topic, base. auto.
Qed.

Lemma process_item_rename_request_witness :
  let E := opening second_page_unreadable (Some acme_reply) in
  let run := process_item E freshly_scanned (None, empty_world) in
  let evs := events_since empty_world (final_world run) in
  renames evs = [(item_id freshly_scanned, lit "Acme_Corp_-_Invoice_Payment.pdf")]
  /\ lit "id-2" = item_id freshly_scanned
  /\ candidates evs = [lit "Acme_Corp_-_Invoice_Payment.pdf"]
  /\ lit "Acme_Corp_-_Invoice_Payment.pdf" <> item_name freshly_scanned
  /\ exists topic new_name_base,
       topic <> [] /\ new_name_base <> []
       /\ convert_topic_to_filename (sanitize_filename E) topic
          = Some new_name_base
       /\ lit "Acme_Corp_-_Invoice_Payment.pdf"
          = new_name_base
            ++ snd (splitext (os_path_module E) (item_name freshly_scanned)).
Proof.
  apply (process_item_rename_request
           (opening second_page_unreadable (Some acme_reply)) freshly_scanned
           None empty_world (lit "id-2")
           (lit "Acme_Corp_-_Invoice_Payment.pdf")).
  vm_compute. left. reflexivity.
Defined.

(** The rename requests of a list of documents. *)
Lemma process_items_renames (E : environment) : forall items (l : option path) w,
  exists s' evs,
    process_items E items (l, w) = (Ret tt, s')
    /\ trace (snd s') = trace w ++ evs
    /\ length (renames evs) <= length items
    /\ Forall (fun request =>
                 exists item,
                   In item items /\ fst request = item_id item
                   /\ snd request <> item_name item)
              (renames evs).
Proof.
  unfold process_items. induction items as [|item items IH]; intros l w.
  - exists (l, w), []. simpl. rewrite app_nil_r. repeat split; auto.
  - destruct (process_item_run E item l w) as [[l1 w1] [evs1 [R1 [T1 S1]]]].
    destruct (IH l1 w1) as [s' [evs2 [R2 [T2 [Len2 All2]]]]].
    exists s', (Printed (MsgProcessingFile (item_name item) (item_id item))
                :: evs1 ++ evs2).
    simpl for_each. rewrite (bind_ret_run _ _ _ _ _ R1).
    split; [exact R2|]. split.
    { rewrite T2. cbn [snd] in T1. rewrite T1, <- app_assoc. reflexivity. }
    assert (Tail : Forall (fun request =>
                     exists it, In it (item :: items)
                                /\ fst request = item_id it
                                /\ snd request <> item_name it)
                          (renames evs2)).
    { eapply Forall_impl; [|exact All2].
      intros request [it [I [A B]]]. exists it. split; [now right|auto]. }
    simpl renames. rewrite renames_app.
    destruct (rename_shape_requests E item evs1 S1)
      as [R|[topic [base [n [R [_ [Hn _]]]]]]]; rewrite R.
    + simpl. split; [lia|exact Tail].
    + simpl. split; [lia|]. constructor; [|exact Tail].
      exists item. simpl. split; [now left|auto].
Qed.

(** X14: over a list of documents there are at most as many rename
    requests as documents, and each request is addressed to a document of
    the list, with a new name that differs from the name of that
    document. *)
Theorem process_items_rename_requests (E : environment)
    (items : list drive_file) (l : option path) (w : world) :
  let run := process_items E items (l, w) in
  let evs := events_since w (final_world run) in
  length (renames evs) <= length items
  /\ Forall (fun request =>
               exists item,
                 In item items /\ fst request = item_id item
                 /\ snd request <> item_name item)
            (renames evs).
Proof.
  cbv zeta.
  destruct (process_items_renames E items l w) as [s' [evs [R [T [Len All]]]]].
  rewrite R. unfold final_world. cbn [snd].
  now rewrite (events_since_app w (snd s') evs T).
Qed.

(** ** Events that depend on a returned value *)

Lemma emits_weaken {L A} (P P' : event -> Prop) (m : M L A) :
  (forall e, P e -> P' e) -> emits P m -> emits P' m.
Proof.
  intros H Hm s. destruct (Hm s) as [evs [T F]]. exists evs. split; auto.
  eapply Forall_impl; eauto.
Qed.

Lemma emits_bind_returns {L A B} (R : A -> Prop) (P : event -> Prop)
    (m : M L A) (k : A -> M L B) :
  returns R P m -> (forall a, R a -> emits P (k a)) -> emits P (bind m k).
Proof.
  intros Hm Hk s. destruct (Hm s) as [[evs1 [T1 F1]] Hr]. unfold bind.
  destruct (m s) as [[a|e] s1]; cbn [fst snd] in *.
  - destruct (Hk a (Hr a eq_refl) s1) as [evs2 [T2 F2]]. exists (evs1 ++ evs2).
    rewrite T2, T1, app_assoc. split; auto. now apply Forall_app.
  - exists evs1. auto.
Qed.

Lemma idle_events evs :
  Forall idle evs -> prompts evs = [] /\ candidates evs = [] /\ renames evs = [].
Proof.
  induction 1 as [|e evs He _ IH]; simpl; auto.
  destruct e as [[]| | | | |]; simpl in He; try contradiction; exact IH.
Qed.

Lemma unnamed_events evs :
  Forall unnamed evs -> candidates evs = [] /\ renames evs = [].
Proof.
  induction 1 as [|e evs He _ IH]; simpl; auto.
  destruct e as [[]| | | | |]; simpl in He; try contradiction; exact IH.
Qed.

Section Skipped.

Variable E : environment.

Lemma perform_ocr_on_pdf_returns_none {L} pdf_path :
  no_pdf_opens E ->
  returns (fun text => text = None) idle (@perform_ocr_on_pdf E L pdf_path).
Proof.
  intros H [l w]. destruct (fitz_open E w pdf_path) as [e|doc] eqn:Hopen.
  - rewrite (perform_ocr_on_pdf_unopened E l w pdf_path e Hopen).
    cbn [fst snd trace]. split.
    + exists [Printed (MsgPdfError e)]. split; [reflexivity|].
      repeat constructor.
    + now intros a [= <-].
  - now destruct (H _ _ _ Hopen).
Qed.

Lemma get_topic_from_llm_returns_blank {L} text :
  no_topic E ->
  returns (fun topic => topic = None \/ topic = Some []) unnamed
    (@get_topic_from_llm E L text).
Proof.
  intros H s. split.
  - apply (emits_weaken inferencer_event).
    + intros [[]| | | | |]; simpl; auto.
    + unfold get_topic_from_llm. repeat emits_step.
  - destruct s as [l w]. destruct text as [|c text].
    + intros a [= <-]. now left.
    + destruct (get_topic_from_llm_reply E l w (c :: text))
        as [pre [post [R _]]]; [discriminate|].
      cbv zeta in R. rewrite R. cbn [fst]. intros a [= <-].
      match goal with |- context [generate E ?w1 _ ?p] =>
        destruct (generate E w1 LLM_MODEL_NAME p) as [e|[r|]] eqn:G
      end; auto.
      right. f_equal. apply strip_blank. exact (H _ _ _ G).
Qed.

(** When no PDF opens, the processing of a document sends no prompt, reaches
    no candidate name and requests no rename. *)
Lemma process_item_idle item :
  no_pdf_opens E -> emits idle (process_item E item).
Proof.
  intros H. unfold process_item. cbv zeta.
  apply emits_bind; [repeat emits_step|]. intros _.
  apply emits_bind; [repeat emits_step|]. intros _.
  apply emits_try_finally; [|repeat emits_step].
  apply emits_try_except; [|intros e; repeat emits_step].
  apply emits_bind; [repeat emits_step|]. intros _.
  apply emits_bind; [repeat emits_step|]. intros temp_file.
  apply emits_bind; [repeat emits_step|]. intros _.
  apply emits_bind; [repeat emits_step|]. intros _.
  apply emits_bind; [repeat emits_step|]. intros _.
  apply emits_bind; [repeat emits_step|]. intros _.
  apply emits_bind; [repeat emits_step|]. intros _.
  apply (emits_bind_returns (fun text => text = None));
    [now apply perform_ocr_on_pdf_returns_none|].
  intros ocr_text ->. repeat emits_step.
Qed.

(** When the model gives no topic, the processing of a document reaches no
    candidate name and requests no rename. *)
Lemma process_item_unnamed item :
  no_topic E -> emits unnamed (process_item E item).
Proof.
  intros H. unfold process_item. cbv zeta.
  apply emits_bind; [repeat emits_step|]. intros _.
  apply emits_bind; [repeat emits_step|]. intros _.
  apply emits_try_finally; [|repeat emits_step].
  apply emits_try_except; [|intros e; repeat emits_step].
  apply emits_bind; [repeat emits_step|]. intros _.
  apply emits_bind; [repeat emits_step|]. intros temp_file.
  apply emits_bind; [repeat emits_step|]. intros _.
  apply emits_bind; [repeat emits_step|]. intros _.
  apply emits_bind; [repeat emits_step|]. intros _.
  apply emits_bind; [repeat emits_step|]. intros _.
  apply emits_bind; [repeat emits_step|]. intros _.
  apply emits_bind.
  { unfold perform_ocr_on_pdf, remove_image_temp_files, remove_image_temp_file,
      ocr_page. repeat emits_step. }
  intros ocr_text. destruct ocr_text as [[|c ocr_text]|];
    try solve [repeat emits_step].
  apply (emits_bind_returns (fun topic => topic = None \/ topic = Some []));
    [now apply get_topic_from_llm_returns_blank|].
  intros topic [->| ->]; repeat emits_step.
Qed.

End Skipped.

(** X15: when no PDF can be opened, the loop over the documents sends no
    prompt to the model, reaches no candidate name and requests no
    rename. *)
Theorem process_items_no_pdf_opens (E : environment)
    (items : list drive_file) (l : option path) (w : world) :
  no_pdf_opens E ->
  let evs := events_since w (final_world (process_items E items (l, w))) in
  prompts evs = [] /\ candidates evs = [] /\ renames evs = [].
Proof.
  intros H evs. apply idle_events.
  assert (Hm : emits idle (process_items E items)).
  { apply emits_for_each. intros item. now apply process_item_idle. }
  destruct (Hm (l, w)) as [evs' [T F]]. subst evs.
  unfold final_world. cbn [snd] in T.
  now rewrite (events_since_app _ _ evs' T).
Qed.

Lemma process_items_no_pdf_opens_witness :
  let evs :=
    events_since empty_world
      (final_world (process_items (calm (Some acme_reply))
                      [freshly_scanned; already_named] (None, empty_world))) in
  prompts evs = [] /\ candidates evs = [] /\ renames evs = [].
Proof.
  apply (process_items_no_pdf_opens (calm (Some acme_reply))
           [freshly_scanned; already_named] None empty_world).
  intros w pdf_path doc. discriminate.
Defined.

(** X16: when the model gives no topic (it raises, replies without the
    field [response], or replies with white space only), the loop over the
    documents reaches no candidate name and requests no rename. *)
Theorem process_items_no_topic (E : environment)
    (items : list drive_file) (l : option path) (w : world) :
  no_topic E ->
  let evs := events_since w (final_world (process_items E items (l, w))) in
  candidates evs = [] /\ renames evs = [].
Proof.
  intros H evs. apply unnamed_events.
  assert (Hm : emits unnamed (process_items E items)).
  { apply emits_for_each. intros item. now apply process_item_unnamed. }
  destruct (Hm (l, w)) as [evs' [T F]]. subst evs.
  unfold final_world. cbn [snd] in T.
  now rewrite (events_since_app _ _ evs' T).
Qed.

Lemma process_items_no_topic_witness :
  let evs :=
    events_since empty_world
      (final_world (process_items
                      (opening second_page_unreadable (Some (lit "  ")))
                      [freshly_scanned; already_named] (None, empty_world))) in
  candidates evs = [] /\ renames evs = [].
Proof.
  apply (process_items_no_topic
           (opening second_page_unreadable (Some (lit "  ")))
           [freshly_scanned; already_named] None empty_world).
  intros w prompt r [= <-]. repeat constructor.
Defined.

(** ** Statements that leave the locals and the disk alone *)

Section Steady.

Context {L : Type}.

Lemma steady_ret {A} (a : A) : steady (@ret L A a).
Proof. intros s. split; reflexivity. Qed.

Lemma steady_raise {A} e : steady (@raise L A e).
Proof. intros s. split; reflexivity. Qed.

Lemma steady_emit e : steady (@emit L e).
Proof. intros s. split; reflexivity. Qed.

Lemma steady_print m : steady (@print L m).
Proof. apply steady_emit. Qed.

Lemma steady_ask {A} (f : world -> exn + A) : steady (@ask L A f).
Proof. intros s. unfold ask. destruct (f (snd s)); split; reflexivity. Qed.

Lemma steady_attempt f : steady (@attempt L f).
Proof. intros s. unfold attempt. destruct (f (snd s)); split; reflexivity. Qed.

Lemma steady_bind {A B} (m : M L A) (k : A -> M L B) :
  steady m -> (forall a, steady (k a)) -> steady (bind m k).
Proof.
  intros Hm Hk s. destruct (Hm s) as [L1 F1]. unfold bind.
  destruct (m s) as [[a|e] s1]; cbn [snd] in *.
  - destruct (Hk a s1) as [L2 F2]. split; congruence.
  - split; assumption.
Qed.

Lemma steady_try_except {A} (m : M L A) h :
  steady m -> (forall e, steady (h e)) -> steady (try_except m h).
Proof.
  intros Hm Hh s. destruct (Hm s) as [L1 F1]. unfold try_except.
  destruct (m s) as [[a|e] s1]; cbn [snd] in *.
  - split; assumption.
  - destruct (Hh e s1) as [L2 F2]. split; congruence.
Qed.

End Steady.

Ltac steady_step :=
  match goal with
  | |- steady (bind _ _) => apply steady_bind; [|intros ?]
  | |- steady (ret _) => apply steady_ret
  | |- steady (raise _) => apply steady_raise
  | |- steady (print _) => apply steady_print
  | |- steady (emit _) => apply steady_emit
  | |- steady (ask _) => apply steady_ask
  | |- steady (attempt _) => apply steady_attempt
  | |- steady (try_except _ _) => apply steady_try_except; [|intros ?]
  | |- steady (if ?b then _ else _) => destruct b
  | |- steady (match ?x with _ => _ end) => destruct x
  | |- steady (let _ := _ in _) => cbv zeta
  end.

Section Disk.

Variable E : environment.
Hypothesis Htidy : tidy E.

Lemma perform_ocr_on_pdf_steady {L} pdf_path :
  steady (@perform_ocr_on_pdf E L pdf_path).
Proof.
  destruct Htidy as [_ [Hrm Hsave]]. intros [l w].
  destruct (fitz_open E w pdf_path) as [e|doc] eqn:Hopen.
  - rewrite (perform_ocr_on_pdf_unopened E l w pdf_path e Hopen).
    split; reflexivity.
  - destruct (perform_ocr_on_pdf_opened E l w pdf_path doc Hopen)
      as [r0 [out [w' [Run [_ [_ [_ [_ [_ [_ F]]]]]]]]]].
    rewrite Run. cbn [fst snd]. split; [reflexivity|].
    now destruct (F (Hsave _ _ _ Hopen) Hrm).
Qed.

Lemma get_topic_from_llm_steady {L} text : steady (@get_topic_from_llm E L text).
Proof. unfold get_topic_from_llm. repeat steady_step. Qed.

Lemma delete_created p fs : ~ In p fs -> delete_file p (p :: fs) = fs.
Proof.
  intros H. unfold delete_file. simpl. rewrite Nat.eqb_refl. simpl.
  now apply delete_file_absent.
Qed.

(** The disk after one document. *)
Lemma process_item_disk item (l : option path) w :
  files (final_world (process_item E item (l, w))) = files w.
Proof.
  destruct Htidy as [Hdl [Hrm _]].
  unfold process_item. cbv zeta.
  rewrite (bind_ret_run _ _ _ tt
             (l, World (files w)
                   (trace w ++ [Printed (MsgProcessingFile (item_name item)
                                           (item_id item))])))
    by reflexivity.
  set (w0 := World (files w) _).
  rewrite (bind_ret_run _ _ _ tt (None, w0)) by reflexivity.
  match goal with |- context [try_finally (try_except ?body ?h) ?final] =>
    assert (Body : exists l1 w1,
      try_except body h (None, w0) = (Ret tt, (l1, w1))
      /\ (l1 = None /\ files w1 = files w
          \/ exists p, l1 = Some p /\ files w1 = p :: files w
                       /\ ~ In p (files w)))
  end.
  { unfold try_except at 1. unfold bind at 1. unfold attempt at 1. cbn [snd].
    destruct (get_media_error E w0 (item_id item)) as [e|].
    { eexists _, _. split; [reflexivity|]. now left. }
    unfold bind at 1. unfold NamedTemporaryFile at 1.
    unfold bind at 1. unfold attempt at 1. cbn [snd].
    destruct (tempfile_error E w0) as [e|].
    { eexists _, _. split; [reflexivity|]. now left. }
    cbn [fst snd files trace].
    unfold bind at 1. rewrite print_run.
    unfold bind at 1. unfold emit at 1. cbn [fst snd files trace].
    unfold bind at 1. unfold attempt at 1. cbn [snd].
    rewrite Hdl.
    unfold bind at 1. unfold set_local at 1. cbn [fst snd].
    match goal with |- context [bind (print MsgDownloadComplete) ?k (Some ?p, ?w2)] =>
      assert (St : steady (bind (print (L := option path) MsgDownloadComplete) k));
      [|destruct (St (Some p, w2)) as [Sl Sf];
        destruct (bind (print MsgDownloadComplete) k (Some p, w2))
          as [[[]|e] [l1 w1]]; cbn [fst snd files] in Sl, Sf;
        eexists _, _; (split; [reflexivity|]); right; exists p;
        repeat split; auto; apply fresh_path_not_on_disk]
    end.
    apply steady_bind; [apply steady_print|]. intros _.
    apply steady_bind; [apply perform_ocr_on_pdf_steady|]. intros ocr_text.
    destruct ocr_text as [[|c ocr_text]|]; try solve [repeat steady_step].
    apply steady_bind; [apply get_topic_from_llm_steady|]. intros topic.
    repeat steady_step. }
  destruct Body as [l1 [w1 [Body Disk]]].
  unfold try_finally. rewrite Body.
  destruct Disk as [[-> F]|[p [-> [F Np]]]].
  - unfold bind, get_local, ret. cbn. exact F.
  - unfold bind at 1. unfold get_local at 1. cbn [fst snd].
    unfold bind at 1. unfold os_path_exists at 1. cbn [fst snd].
    rewrite F. replace (on_disk p (p :: files w)) with true
      by (symmetry; apply on_disk_In; now left).
    unfold try_except, os_remove, bind, os_path_exists, attempt.
    cbn [fst snd]. rewrite F.
    replace (on_disk p (p :: files w)) with true
      by (symmetry; apply on_disk_In; now left).
    cbn [negb]. rewrite Hrm. cbn [fst snd files trace].
    unfold final_world. cbn. rewrite F. now apply delete_created.
Qed.

End Disk.

(** ** The program as a whole *)

Ltac early :=
  split; [reflexivity|]; cbn [files trace]; rewrite <- ?app_assoc;
  do 4 (split; [reflexivity|]).

(** [main] ends before the loop, having sent no request for a rename and
    left the disk alone, or runs the loop over a listing of Drive. *)
Lemma main_cases (E : environment) (l : option path) (w : world) :
  (exists r w' pre,
      main E (l, w) = (r, (l, w'))
      /\ files w' = files w /\ trace w' = trace w ++ pre
      /\ renames pre = [] /\ started pre = []
      /\ forall e, r = Raise e ->
           (exists w0, authenticate_drive E w0 = inl e)
           \/ (exists w0 query, list_files E w0 query = inl e))
  \/ (exists folder others w0 items w1 pre,
        list_files E w (folder_query (input E w)) = inr (folder :: others)
        /\ list_files E w0 (pdf_query (item_id folder)) = inr items
        /\ files w1 = files w /\ trace w1 = trace w ++ pre
        /\ renames pre = [] /\ started pre = []
        /\ main E (l, w) = process_items E items (l, w1)).
Proof.
  remember (main E (l, w)) as run eqn:Run.
  unfold main, find_folder_id in Run.
  unfold bind at 1 in Run. unfold ask at 1 in Run. cbn [snd] in Run.
  destruct (authenticate_drive E w) as [e|[|]] eqn:Hauth; cbn [negb] in Run.
  - left. exists (Raise e), w, []. rewrite app_nil_r.
    repeat split; auto. intros e' [= <-]. left. now exists w.
  - unfold bind at 1 in Run. cbn [snd] in Run.
    unfold bind at 1 in Run. unfold bind at 1 in Run.
    unfold ask at 1 in Run. cbn [snd] in Run.
    match type of Run with context [list_files E w ?q] =>
      destruct (list_files E w q) as [e|[|folder others]] eqn:Hfolder
    end.
    + left. exists (Raise e), w, []. rewrite app_nil_r.
      repeat split; auto. intros e' [= <-]. right. eexists _, _. exact Hfolder.
    + left. eexists _, _, _. unfold bind at 1 in Run. rewrite print_run in Run.
      unfold ret at 1 in Run. rewrite print_run in Run.
      cbn [files trace] in Run. rewrite Run.
      early. discriminate.
    + unfold ret at 1 in Run. destruct (item_id folder) as [|c id] eqn:Hid.
      * left. eexists _, _, _. rewrite print_run in Run.
        cbn [files trace] in Run. rewrite Run.
        early. discriminate.
      * unfold bind at 1 in Run. rewrite print_run in Run.
        unfold bind at 1 in Run. rewrite print_run in Run. cbv zeta in Run.
        unfold bind at 1 in Run. unfold ask at 1 in Run.
        cbn [snd files trace] in Run.
        match type of Run with context [list_files E ?w1 ?q] =>
          destruct (list_files E w1 q) as [e|[|item items]] eqn:Hlist
        end.
        -- left. eexists (Raise e), _, _. rewrite Run.
           early. intros e' [= <-]. right. eexists _, _. exact Hlist.
        -- left. eexists _, _, _. rewrite print_run in Run.
           cbn [files trace] in Run. rewrite Run.
           early. discriminate.
        -- right. eexists folder, others, _, (item :: items), _, _.
           unfold bind at 1 in Run. rewrite print_run in Run.
           cbn [files trace] in Run.
           split; [exact Hfolder|]. split; [rewrite Hid; exact Hlist|].
           refine (conj _ (conj _ (conj _ (conj _ Run))));
             cbn [files trace]; rewrite <- ?app_assoc; reflexivity.
  - left. eexists _, _, _. rewrite print_run in Run.
    cbn [files trace] in Run. rewrite Run.
    early. discriminate.
Qed.

(** X17: when no download, no save of an image and no removal of a file
    fails, the disk after the loop over a list of documents, and after
    [main], holds the files that it held before: every temporary file
    has been removed, whatever else failed. *)
Theorem process_items_disk_restored (E : environment) (Htidy : tidy E) :
  (forall items (l : option path) w,
      files (final_world (process_items E items (l, w))) = files w)
  /\ forall (l : option path) w, files (final_world (main E (l, w))) = files w.
Proof.
  assert (Loop : forall items (l : option path) w,
             files (final_world (process_items E items (l, w))) = files w).
  { unfold process_items. induction items as [|item items IH]; intros l w.
    - reflexivity.
    - pose proof (process_item_disk E Htidy item l w) as D.
      destruct (process_item_run E item l w) as [[l1 w1] [evs [R _]]].
      rewrite R in D. unfold final_world in D. cbn [snd] in D.
      cbn [for_each]. rewrite (bind_ret_run _ _ _ tt (l1, w1) R).
      now rewrite IH. }
  split; [exact Loop|]. intros l w.
  destruct (main_cases E l w)
    as [[r [w' [pre [Run [F _]]]]]
       |[folder [others [w0 [items [w1 [pre [_ [_ [F [_ [_ [_ Run]]]]]]]]]]]]].
  - rewrite Run. exact F.
  - rewrite Run, Loop. exact F.
Qed.

Lemma process_items_disk_restored_witness :
  files (final_world
           (main (scans_folder (opening second_page_unreadable (Some acme_reply)))
              (None, empty_world)))
  = files empty_world.
Proof.
  apply (process_items_disk_restored
           (scans_folder (opening second_page_unreadable (Some acme_reply)))).
  repeat split.
  intros w pdf_path doc [= <-]. repeat constructor.
Defined.

(** X18: a failure of the download leaves the temporary PDF on disk. When
    the request and the temporary file can be made and the download
    fails, the processing of the document ends without an exception, the
    one temporary file that it created is new and stays on disk, and
    nothing is removed: the path is recorded only after the download. *)
Theorem process_item_download_failure (E : environment) (item : drive_file)
    (l : option path) (w : world) :
  (forall w0, get_media_error E w0 (item_id item) = None) ->
  (forall w0, tempfile_error E w0 = None) ->
  (forall w0 p, download_error E w0 (item_id item) p <> None) ->
  let run := process_item E item (l, w) in
  let evs := events_since w (final_world run) in
  outcome run = Ret tt
  /\ exists p,
       ~ In p (files w)
       /\ created evs = [p]
       /\ files (final_world run) = p :: files w
       /\ Forall (fun e => e <> FileRemoved p) evs.
Proof.
  intros Hmedia Htemp Hdl. cbv zeta.
  remember (process_item E item (l, w)) as run eqn:Run.
  unfold process_item in Run. cbv zeta in Run.
  unfold bind at 1 in Run. rewrite print_run in Run.
  unfold bind at 1 in Run. unfold set_local at 1 in Run. cbn [fst snd] in Run.
  unfold try_finally in Run. unfold try_except at 1 in Run.
  unfold bind at 1 in Run. unfold attempt at 1 in Run. cbn [snd] in Run.
  rewrite Hmedia in Run.
  unfold bind at 1 in Run. unfold NamedTemporaryFile at 1 in Run.
  unfold bind at 1 in Run. unfold attempt at 1 in Run. cbn [snd] in Run.
  rewrite Htemp in Run. cbn [fst snd files trace] in Run.
  unfold bind at 1 in Run. rewrite print_run in Run.
  unfold bind at 1 in Run. unfold emit at 1 in Run.
  cbn [fst snd files trace] in Run.
  unfold bind at 1 in Run. unfold attempt at 1 in Run. cbn [snd] in Run.
  match type of Run with context [download_error E ?w2 ?id ?p] =>
    destruct (download_error E w2 id p) as [e|] eqn:Hd;
    [|exfalso; exact (Hdl _ _ Hd)]
  end.
  rewrite print_run in Run. unfold bind at 1 in Run.
  unfold get_local at 1 in Run. cbn [fst snd files trace] in Run.
  unfold ret in Run. subst run. unfold outcome, final_world. cbn [fst snd].
  split; [reflexivity|]. exists (fresh_path (files w)).
  split; [apply fresh_path_not_on_disk|].
  rewrite (events_since_app w _
             [Printed (MsgProcessingFile (item_name item) (item_id item));
              TempFileCreated (fresh_path (files w));
              Printed MsgDownloading;
              Download (item_id item) (fresh_path (files w));
              Printed (MsgUnexpected (item_name item) e)])
    by (cbn [trace]; now rewrite <- ?app_assoc).
  split; [reflexivity|]. split; [reflexivity|].
  repeat constructor; discriminate.
Qed.

Lemma process_item_download_failure_witness :
  let run :=
    process_item (failing_download (calm None)) freshly_scanned
      (None, empty_world) in
  let evs := events_since empty_world (final_world run) in
  outcome run = Ret tt
  /\ exists p,
       ~ In p (files empty_world)
       /\ created evs = [p]
       /\ files (final_world run) = p :: files empty_world
       /\ Forall (fun e => e <> FileRemoved p) evs.
Proof.
  apply (process_item_download_failure (failing_download (calm None))
           freshly_scanned None empty_world).
  - reflexivity.
  - reflexivity.
  - discriminate.
Defined.



(** X20: every request for a rename that [main] sends is addressed to a
    document of a listing that Drive returned, and gives it a name that
    differs from the listed name. *)
Theorem main_rename_requests (E : environment) (l : option path) (w : world) :
  Forall (fun request =>
            exists w0 query items item,
              list_files E w0 query = inr items
              /\ In item items
              /\ fst request = item_id item
              /\ snd request <> item_name item)
         (renames (events_since w (final_world (main E (l, w))))).
Proof.
  destruct (main_cases E l w)
    as [[r [w' [pre [Run [_ [T [Rn _]]]]]]]
       |[folder [others [w0 [items [w1 [pre [_ [Hlist [_ [T [Rn [_ Run]]]]]]]]]]]]];
    rewrite Run; unfold final_world; cbn [snd].
  - rewrite (events_since_app w w' pre T), Rn. constructor.
  - destruct (process_items_renames E items l w1) as [s' [evs [R [T' [_ All]]]]].
    rewrite R. cbn [snd].
    rewrite (events_since_app w (snd s') (pre ++ evs))
      by (now rewrite T', T, app_assoc).
    rewrite renames_app.
    rewrite Rn. cbn [app].
    eapply Forall_impl; [|exact All].
    intros request [item [I [Hid Hname]]].
    now exists w0, (pdf_query (item_id folder)), items, item.
Qed.

